(** * Refactoring Swarm: a shallow embedding of the workflow engine and its workers

    Python sources embedded here:
    - [src/src/agents/fixer.py]      : [FixerAgent._remove_test_code], [FixerAgent.fix_file]
    - [src/src/agents/auditor.py]    : [AuditorAgent.analyze_file], [create_refactoring_plan]
    - [src/src/agents/judge.py]      : [JudgeAgent.generate_tests], [validate_code],
                                       [get_failure_feedback]
    - [src/src/orchestrator.py]      : [RefactoringOrchestrator.run], [_build_summary],
                                       [_cleanup_tests]
    - [src/src/utils/llm_client.py]  : [LLMClient.generate], [_extract_retry_delay]
    - [src/src/utils/file_tools.py]  : [Tools._is_safe_path]
    - [src/src/utils/filesystem.py]  : [_resolve_and_validate]

    Python [str] values are Rocq [string]s; the character with code [n] stands
    for the code point [n] (so the 8-bit alphabet is Latin-1). *)

From Stdlib Require Import Bool Arith Lia List String Ascii QArith.
Import ListNotations.
Open Scope nat_scope.
Open Scope string_scope.
Open Scope list_scope.

(* ------------------------------------------------------------------ *)
(** ** Character classes and string helpers (Python [str] methods, [re]) *)

Module Str.

(** [str.isspace] / regex [\s] on the Latin-1 range. *)
Definition is_space (c : ascii) : bool :=
  let n := nat_of_ascii c in
  ((Nat.leb 9 n) && (Nat.leb n 13)) || ((Nat.leb 28 n) && (Nat.leb n 32)) || (Nat.eqb n 133) || (Nat.eqb n 160).

(** Regex [\w] on the Latin-1 range: [str.isalnum()] or underscore. *)
Definition is_word (c : ascii) : bool :=
  let n := nat_of_ascii c in
  ((Nat.leb 48 n) && (Nat.leb n 57)) || ((Nat.leb 65 n) && (Nat.leb n 90)) || ((Nat.leb 97 n) && (Nat.leb n 122))
  || (Nat.eqb n 95) || (Nat.eqb n 170) || (Nat.eqb n 178) || (Nat.eqb n 179) || (Nat.eqb n 181) || (Nat.eqb n 185)
  || (Nat.eqb n 186) || ((Nat.leb 188 n) && (Nat.leb n 190)) || ((Nat.leb 192 n) && (Nat.leb n 214))
  || ((Nat.leb 216 n) && (Nat.leb n 246)) || ((Nat.leb 248 n) && (Nat.leb n 255)).

(** [s.lstrip()] *)
Fixpoint lstrip (s : string) : string :=
  match s with
  | EmptyString => EmptyString
  | String c s' => if is_space c then lstrip s' else s
  end.

(** [s.strip() == ''] *)
Fixpoint is_blank (s : string) : bool :=
  match s with
  | EmptyString => true
  | String c s' => is_space c && is_blank s'
  end.

(** [len(line) - len(line.lstrip())] *)
Definition indent (s : string) : nat := String.length s - String.length (lstrip s).

(** [sub in s] *)
Fixpoint contains (sub s : string) : bool :=
  prefix sub s ||
  match s with
  | EmptyString => false
  | String _ s' => contains sub s'
  end.

(** Remainder of [s] after the literal prefix [p], if [s] starts with [p]. *)
Fixpoint after_prefix (p s : string) : option string :=
  match p, s with
  | EmptyString, _ => Some s
  | String c p', String d s' => if Ascii.eqb c d then after_prefix p' s' else None
  | String _ _, EmptyString => None
  end.

(** [\s+] followed by [k]: at least one whitespace character, then [k] on
    the rest with the whole whitespace run consumed (the continuation of every
    pattern below starts with a non-whitespace character, so the greedy match
    never needs to give whitespace back). *)
Definition ws1_then (s : string) (k : string -> bool) : bool :=
  match s with
  | String c _ => is_space c && k (lstrip s)
  | EmptyString => false
  end.

Definition lit_then (p s : string) (k : string -> bool) : bool :=
  match after_prefix p s with Some r => k r | None => false end.

(** Maximal run of [\w] characters. *)
Fixpoint drop_word (s : string) : string :=
  match s with
  | String c s' => if is_word c then drop_word s' else s
  | EmptyString => EmptyString
  end.

(** [str.split('\n')] and ['\n'.join(...)] *)
Definition nl : string := String (ascii_of_nat 10) EmptyString.

Fixpoint split_nl_aux (acc : string) (s : string) : list string :=
  match s with
  | EmptyString => [acc]
  | String c s' =>
      if Ascii.eqb c (ascii_of_nat 10) then acc :: split_nl_aux EmptyString s'
      else split_nl_aux (acc ++ String c EmptyString) s'
  end.

Definition split_nl (s : string) : list string := split_nl_aux EmptyString s.

Fixpoint join_nl (ls : list string) : string :=
  match ls with
  | [] => EmptyString
  | [l] => l
  | l :: ls' => l ++ nl ++ join_nl ls'
  end.

End Str.

Import Str.

(* ------------------------------------------------------------------ *)
(** ** [FixerAgent._remove_test_code] (fixer.py, lines 20-73) *)

Module Sanitizer.

(** [re.match(r'^import\s+(unittest|pytest)', line)] *)
Definition import_re (line : string) : bool :=
  lit_then "import" line (fun r => ws1_then r (fun r' =>
    prefix "unittest" r' || prefix "pytest" r')).

(** [re.match(r'^from\s+(unittest|pytest)', line)] *)
Definition from_re (line : string) : bool :=
  lit_then "from" line (fun r => ws1_then r (fun r' =>
    prefix "unittest" r' || prefix "pytest" r')).

(** [re.match(r'^class\s+Test\w*.*:', line)]: [\w*.*] absorbs any run of
    characters, so the pattern asks for a [':'] somewhere after [Test]. *)
Definition class_re (line : string) : bool :=
  lit_then "class" line (fun r => ws1_then r (fun r' =>
    lit_then "Test" r' (fun r'' => contains ":" r''))).

(** [re.match(r'^def\s+test_\w+\s*\(', line)] *)
Definition def_re (line : string) : bool :=
  lit_then "def" line (fun r => ws1_then r (fun r' =>
    lit_then "test_" r' (fun r'' =>
      match r'' with
      | String c _ => is_word c && prefix "(" (lstrip (drop_word r''))
      | EmptyString => false
      end))).

(** The loop state: [(skip_until_dedent, class_indent)]. *)
Definition sstate := (bool * nat)%type.

(** One iteration of the [for line in lines] loop: the new state and the
    line appended to [clean_lines], if any. *)
Definition step (st : sstate) (line : string) : sstate * option string :=
  if import_re line then (st, None)
  else if from_re line then (st, None)
  else if class_re line || contains "unittest.TestCase" line then ((true, indent line), None)
  else
    let '(skip, ci) := st in
    if skip && (is_blank line || Nat.ltb ci (indent line)) then (st, None)
    else
      (* here the skip flag is reset when it was set *)
      if def_re line then ((true, 0), None)
      else if contains "unittest.main()" line || contains "pytest.main()" line
      then ((false, ci), None)
      else ((false, ci), Some line).

Fixpoint run_lines (st : sstate) (lines : list string) : list string :=
  match lines with
  | [] => []
  | l :: ls =>
      let '(st', o) := step st l in
      match o with
      | Some l' => l' :: run_lines st' ls
      | None => run_lines st' ls
      end
  end.

(** [while clean_lines and clean_lines[-1].strip() == '': clean_lines.pop()] *)
Fixpoint drop_blank_front (ls : list string) : list string :=
  match ls with
  | l :: ls' => if is_blank l then drop_blank_front ls' else ls
  | [] => []
  end.

Definition trim_trailing (ls : list string) : list string :=
  rev (drop_blank_front (rev ls)).

(** The sanitizer on the list of lines. *)
Definition remove_test_lines (lines : list string) : list string :=
  trim_trailing (run_lines (false, 0) lines).

(** [_remove_test_code] itself: split, sanitize, join. *)
Definition remove_test_code (code : string) : string :=
  join_nl (remove_test_lines (split_nl code)).

(** Line classes used to state what the sanitizer does. *)
Definition is_import (l : string) : bool := import_re l || from_re l.
Definition is_trigger (l : string) : bool :=
  class_re l || contains "unittest.TestCase" l.
Definition plain (l : string) : bool :=
  negb (is_import l || is_trigger l || def_re l
        || contains "unittest.main()" l || contains "pytest.main()" l).

End Sanitizer.


(* ------------------------------------------------------------------ *)
(** ** [LLMClient] retry policy (llm_client.py, lines 65-120) *)

Module Llm.

(** [str.lower()] on the Latin-1 range. *)
Definition lower_char (c : ascii) : ascii :=
  let n := nat_of_ascii c in
  if ((Nat.leb 65 n) && (Nat.leb n 90)) || ((Nat.leb 192 n) && (Nat.leb n 222) && negb (Nat.eqb n 215))
  then ascii_of_nat (n + 32) else c.

Fixpoint lower (s : string) : string :=
  match s with
  | EmptyString => EmptyString
  | String c s' => String (lower_char c) (lower s')
  end.

Definition is_digit (c : ascii) : bool :=
  Nat.leb 48 (nat_of_ascii c) && Nat.leb (nat_of_ascii c) 57.

(** Maximal run of [\d] characters and the rest. *)
Fixpoint digits (s : string) : list nat * string :=
  match s with
  | String c s' =>
      if is_digit c then let '(ds, r) := digits s' in ((nat_of_ascii c - 48) :: ds, r)
      else ([], s)
  | EmptyString => ([], EmptyString)
  end.

Definition digits_value (ds : list nat) : Z :=
  fold_left (fun acc d => (10 * acc + Z.of_nat d)%Z) ds 0%Z.

(** [float(m.group(1))] for a group [d1] or [d1.d2]. *)
Definition decimal_value (d1 d2 : list nat) : Q :=
  Qmake (digits_value (d1 ++ d2)) (Pos.of_nat (Nat.pow 10 (List.length d2))).

(** The pattern [\d+ \.? \d* s] (digits, an optional dot, more digits,
    then the letter s) anchored at the start of [s]. Since neither ['.'] nor
    ['s'] is a digit, backtracking can never turn a failed greedy attempt
    into a match, so the greedy reading decides it. *)
Definition number_then_s (s : string) : option Q :=
  let '(d1, r) := digits s in
  match d1 with
  | [] => None
  | _ =>
      match r with
      | String "s" _ => Some (decimal_value d1 [])
      | String "." r' =>
          let '(d2, r'') := digits r' in
          match r'' with
          | String "s" _ => Some (decimal_value d1 d2)
          | _ => None
          end
      | _ => None
      end
  end.

(** [re.search] of [lit] followed by that pattern: leftmost position that matches. *)
Fixpoint search_delay (lit s : string) : option Q :=
  match (match after_prefix lit s with Some r => number_then_s r | None => None end) with
  | Some q => Some q
  | None =>
      match s with
      | EmptyString => None
      | String _ s' => search_delay lit s'
      end
  end.

Record client := mk_client { max_retries : nat; retry_delay : Q }.

(** [_extract_retry_delay] *)
Definition extract_retry_delay (c : client) (error_message : string) : Q :=
  match search_delay "try again in " error_message with
  | Some q => q
  | None =>
      match search_delay "after " error_message with
      | Some q => q
      | None => retry_delay c
      end
  end.

(** What [self.model.invoke(prompt)] does on one attempt: return content or
    raise an exception whose [str] is given. *)
Inductive invoke_result := InvOk (content : string) | InvErr (err : string).

(** Outcome of [generate]: a response, [LLMError] or [QuotaExhaustedError]. *)
Inductive gen_result := GenOk (s : string) | GenLLMError (msg : string) | GenQuota.

Definition str_last (last : option string) : string :=
  match last with Some e => e | None => "None" end.

(** The [for attempt in range(self.max_retries + 1)] loop; [fuel] is the
    number of iterations left. Returns the outcome and the list of
    cool-down delays passed to [time.sleep] on rate-limit responses (the
    pacing sleeps of [_wait_for_rate_limit] are not recorded). *)
Fixpoint gen_loop (c : client) (invoke : nat -> invoke_result)
    (fuel attempt : nat) (last : option string) : gen_result * list Q :=
  match fuel with
  | O => (GenLLMError ("Error generating response: " ++ str_last last), [])
  | S fuel' =>
      match invoke attempt with
      | InvOk s => (GenOk s, [])
      | InvErr e =>
          let error_str := lower e in
          if contains "429" error_str || contains "rate limit" error_str then
            if Nat.ltb attempt (max_retries c) then
              let delay := extract_retry_delay c error_str in
              let delay := if Qeq_bool delay (retry_delay c)
                           then (retry_delay c * inject_Z (Z.of_nat (attempt + 1)))%Q
                           else delay in
              let '(r, sleeps) := gen_loop c invoke fuel' (S attempt) (Some e) in
              (r, delay :: sleeps)
            else (GenQuota, [])
          else (GenLLMError ("Error generating response: " ++ e), [])
      end
  end.

(** [LLMClient.generate] *)
Definition generate (c : client) (invoke : nat -> invoke_result) : gen_result * list Q :=
  gen_loop c invoke (S (max_retries c)) 0 None.

End Llm.


(* ------------------------------------------------------------------ *)
(** ** Path containment: [Tools._is_safe_path] (file_tools.py, lines 21-27)
       and [_resolve_and_validate] (filesystem.py, lines 12-29) *)

Module Paths.

(** [s.split('/')] *)
Fixpoint split_slash_aux (acc : string) (s : string) : list string :=
  match s with
  | EmptyString => [acc]
  | String c s' =>
      if Ascii.eqb c "/"%char then acc :: split_slash_aux EmptyString s'
      else split_slash_aux (acc ++ String c EmptyString) s'
  end.

(** A [pathlib] path: absolute or not, and its parts. [Path(s)] drops empty
    and ["."] parts and keeps [".."]. *)
Record path := mk_path { absolute : bool; parts : list string }.

Definition of_string (s : string) : path :=
  mk_path (prefix "/" s)
          (filter (fun p => negb (String.eqb p "") && negb (String.eqb p "."))
                  (split_slash_aux EmptyString s)).

(** [a / b] *)
Definition join (a b : path) : path :=
  if absolute b then b else mk_path (absolute a) (parts a ++ parts b).

(** [Path.resolve()] of an absolute path in a tree without symbolic links:
    [".."] removes the previous part (and stays at the root). The result is
    the list of parts below ["/"]. *)
Fixpoint resolve_aux (stack : list string) (ps : list string) : list string :=
  match ps with
  | [] => rev stack
  | p :: ps' =>
      if String.eqb p ".." then resolve_aux (tl stack) ps'
      else resolve_aux (p :: stack) ps'
  end.

Definition resolve (p : path) : list string := resolve_aux [] (parts p).

(** [str()] of an absolute resolved path. *)
Fixpoint join_slash (ps : list string) : string :=
  match ps with
  | [] => EmptyString
  | [p] => p
  | p :: ps' => p ++ "/" ++ join_slash ps'
  end.

Definition abs_str (ps : list string) : string := "/" ++ join_slash ps.

(** [PurePath.is_relative_to]: a part-wise prefix test. *)
Fixpoint parts_prefix (root ps : list string) : bool :=
  match root, ps with
  | [], _ => true
  | r :: root', p :: ps' => String.eqb r p && parts_prefix root' ps'
  | _ :: _, [] => false
  end.

(** [Tools._is_safe_path(self.working_dir / filepath)] for a resolved
    absolute [working_dir] given by its parts. *)
Definition is_safe_path (working_dir : list string) (filepath : string) : bool :=
  parts_prefix working_dir (resolve (join (mk_path true working_dir) (of_string filepath))).

(** [_resolve_and_validate(path)]: [Some resolved], or [None] when it raises
    [SandboxViolationError]. The test is [str(resolved).startswith(str(SANDBOX_ROOT))]. *)
Definition resolve_and_validate (sandbox_root : list string) (p : string) : option (list string) :=
  let candidate := of_string p in
  let candidate := if absolute candidate then candidate
                   else join (mk_path true sandbox_root) candidate in
  let resolved := resolve candidate in
  if prefix (abs_str sandbox_root) (abs_str resolved) then Some resolved else None.

End Paths.


(* ------------------------------------------------------------------ *)
(** ** The workflow engine: workers and [RefactoringOrchestrator.run] *)

Module Engine.
Import Llm.

(** File paths as [list_python_files] returns them (relative to the working
    directory), split at ['/']. *)
Definition path := list string.

Fixpoint path_eqb (p q : path) : bool :=
  match p, q with
  | [], [] => true
  | x :: p', y :: q' => String.eqb x y && path_eqb p' q'
  | _, _ => false
  end.

Definition path_str (p : path) : string := Paths.join_slash p.

(** *** Python dicts with string keys: insertion-ordered association lists *)

Section Dict.
Context {V : Type}.

Definition keys (d : list (path * V)) : list path := map fst d.

Fixpoint lookup (d : list (path * V)) (k : path) : option V :=
  match d with
  | [] => None
  | (k', v) :: d' => if path_eqb k k' then Some v else lookup d' k
  end.

(** [d[k] = v]: replaces in place when [k] is present, appends otherwise. *)
Fixpoint dict_replace (d : list (path * V)) (k : path) (v : V) : list (path * V) :=
  match d with
  | [] => []
  | (k', v') :: d' => if path_eqb k k' then (k', v) :: d' else (k', v') :: dict_replace d' k v
  end.

Definition dict_set (d : list (path * V)) (k : path) (v : V) : list (path * V) :=
  match lookup d k with
  | Some _ => dict_replace d k v
  | None => d ++ [(k, v)]
  end.

(** [del d[k]] *)
Definition dict_del (d : list (path * V)) (k : path) : list (path * V) :=
  filter (fun kv => negb (path_eqb k (fst kv))) d.

End Dict.

(** *** Data *)

(** [run_pylint]'s dict: [score], [issues], and ["error"] when the tool failed. *)
Record pylint_result := mk_pylint { score : Q; issues : list string; perror : option string }.

(** [pylint_results.get('score', 0) < 7.0 or len(issues) > 0 or 'error' in pylint_results] *)
Definition needs_refactoring (p : pylint_result) : bool :=
  negb (Qle_bool 7 (score p))
  || negb (match issues p with [] => true | _ => false end)
  || match perror p with Some _ => true | None => false end.

(** An analysis dict of [AuditorAgent.analyze_file]. *)
Record analysis := mk_analysis {
  a_filepath : path; a_pylint : pylint_result; a_llm : string;
  a_needs : bool; a_error : option string }.

Definition set_llm (a : analysis) (s : string) : analysis :=
  mk_analysis (a_filepath a) (a_pylint a) s (a_needs a) (a_error a).

Inductive status := NoFixNeeded | Success | FixFailed | MaxIterations | QuotaExhausted.

(** A per-file result dict of [run]; absent keys are [None]. *)
Record file_result := mk_result {
  r_filepath : path; r_status : status; r_validated : bool;
  r_improved : option bool; r_iterations : option nat; r_final_score : option Q }.

(** [run_pytest]'s dict; [stdout]/[stderr] are absent on timeout or error. *)
Record pytest_result := mk_pytest { passed : bool; stdout : option string; stderr : option string }.

(** [fix_file]'s dict. *)
Record fix_result := mk_fix { fixed : bool; f_improved : option bool; f_error : option string }.

(** [validate_code]'s dict. *)
Record validation := mk_validation {
  v_filepath : path; v_validated : bool; v_error : option string;
  v_test_results : option pytest_result }.

Record summary := mk_summary {
  s_total : nat; s_successful : nat; s_improved : nat; s_results : list file_result }.

(** Results of [run]: [{"status": "quota_exhausted", "files_processed": 0}],
    [{"status": "no_files", ...}] or the [_build_summary] dict. *)
Inductive run_out := OutQuota0 | OutNoFiles | OutComplete (s : summary).

(** Observable events: calls issued to the workers, [log_experiment] calls,
    and the writes [results[filepath] = record] made while the pending set
    is live (Phase 1 and the Phase 2 loop). *)
Inductive event :=
| EvAnalyzeCall (f : path)
| EvFixCall (f : path) (iteration : nat) (issues_text : string)
| EvValidateCall (f : path) (iteration : nat)
| EvLog (agent : string) (f : path) (success : bool)
| EvTerminal (f : path) (r : file_result)
| EvCleanup (dir : path).

(** The outside world: the files found, and what each tool and model call
    returns. A [false] read or write, or a [None] pylint result, is an
    exception raised by that call. The text written and the prompts built
    are not tracked; the engine's decisions depend only on these outcomes. *)
Record env := mk_env {
  target_dir : path;                  (** [target_dir] of [run]; ["."] is [[]] *)
  max_iterations : nat;
  files : list path;                  (** [tools.list_python_files(target_dir)] *)
  an_read : path -> bool;
  an_pylint : path -> option pylint_result;
  an_gen : path -> gen_result;
  fx_read : path -> nat -> bool;
  fx_gen : path -> nat -> gen_result;
  fx_write : path -> nat -> bool;
  fx_pylint : path -> nat -> option pylint_result;
  vl_read : path -> nat -> bool;
  vl_gen : path -> nat -> gen_result;
  vl_write : path -> nat -> bool;
  vl_pytest : path -> nat -> pytest_result }.

(** *** A state and exception monad *)

Inductive exn := Quota | Other (msg : string).

Inductive res (A : Type) := Ok (a : A) | Raise (e : exn).
Arguments Ok {A} a.
Arguments Raise {A} e.

(** The shared mutable state: test artifacts on disk under the working
    directory, the event trace, and the [pending] and [results] dicts. *)
Record St := mk_st {
  fs : list path; trace : list event;
  pending : list (path * analysis); results : list (path * file_result) }.

Definition M (A : Type) := St -> res A * St.

Definition ret {A} (a : A) : M A := fun st => (Ok a, st).
Definition bind {A B} (m : M A) (k : A -> M B) : M B :=
  fun st => match m st with
            | (Ok a, st') => k a st'
            | (Raise e, st') => (Raise e, st')
            end.
Definition raise {A} (e : exn) : M A := fun st => (Raise e, st).
(** [try: x = m except e: h(e)] followed by [k(x)]: [h] sees only the
    exceptions of [m]. *)
Definition try_with {A B} (m : M A) (k : A -> M B) (h : exn -> M B) : M B :=
  fun st => match m st with
            | (Ok a, st') => k a st'
            | (Raise e, st') => h e st'
            end.

Notation "x <- m ;; k" := (bind m (fun x => k)) (at level 61, m at next level, right associativity).
Notation "m ;;; k" := (bind m (fun _ => k)) (at level 61, right associativity).

Definition get : M St := fun st => (Ok st, st).
Definition modify (f : St -> St) : M unit := fun st => (Ok tt, f st).

Definition with_trace (st : St) (t : list event) : St :=
  mk_st (fs st) t (pending st) (results st).
Definition emit (e : event) : M unit :=
  modify (fun st => with_trace st (trace st ++ [e])).
Definition with_fs (st : St) (l : list path) : St :=
  mk_st l (trace st) (pending st) (results st).
Definition fs_add (p : path) : M unit :=
  modify (fun st => with_fs st (if existsb (path_eqb p) (fs st) then fs st else fs st ++ [p])).
Definition with_pending (st : St) (p : list (path * analysis)) : St :=
  mk_st (fs st) (trace st) p (results st).
Definition with_results (st : St) (r : list (path * file_result)) : St :=
  mk_st (fs st) (trace st) (pending st) r.

(** [results[f] = r] *)
Definition set_result (f : path) (r : file_result) : M unit :=
  modify (fun st => with_results st (dict_set (results st) f r)).
(** [pending[f] = a] *)
Definition set_pending (f : path) (a : analysis) : M unit :=
  modify (fun st => with_pending st (dict_set (pending st) f a)).
(** [del pending[f]] *)
Definition del_pending (f : path) : M unit :=
  modify (fun st => with_pending st (dict_del (pending st) f)).

(** A record write made while the pending set is live. *)
Definition terminal (f : path) (r : file_result) : M unit :=
  set_result f r ;;; emit (EvTerminal f r).

Fixpoint for_each {A} (l : list A) (body : A -> M unit) : M unit :=
  match l with
  | [] => ret tt
  | x :: l' => body x ;;; for_each l' body
  end.

Section Workers.
Variable E : env.

(** *** [AuditorAgent] (auditor.py) *)

Definition auditor : string := "Auditor_Agent".

(** [analyze_file] *)
Definition analyze_file (f : path) : M analysis :=
  emit (EvAnalyzeCall f) ;;;
  if negb (an_read E f) then raise (Other "read_file failed") else
  match an_pylint E f with
  | None => raise (Other "run_pylint failed")
  | Some p =>
      match an_gen E f with
      | GenQuota => raise Quota
      | GenLLMError e =>
          emit (EvLog auditor f false) ;;;
          ret (mk_analysis f p ("LLM error: " ++ e ++ " - Please check your API quota.")%string
                           (needs_refactoring p) (Some e))
      | GenOk response =>
          emit (EvLog auditor f true) ;;;
          ret (mk_analysis f p response (needs_refactoring p) None)
      end
  end.

(** The [for filepath in python_files] loop of [create_refactoring_plan]. *)
Fixpoint plan_loop (fs : list path) (acc : list analysis) : M (list analysis) :=
  match fs with
  | [] => ret acc
  | f :: fs' =>
      try_with (analyze_file f)
        (fun a => plan_loop fs' (acc ++ [a]))
        (fun e => match e with
                  | Quota => raise Quota
                  | Other _ => emit (EvLog auditor f false) ;;; plan_loop fs' acc
                  end)
  end.

(** [create_refactoring_plan] *)
Definition create_refactoring_plan : M (list analysis) :=
  match files E with
  | [] => ret []
  | fs => plan_loop fs []
  end.

(** *** [FixerAgent.fix_file] (fixer.py) *)

Definition fixer : string := "Fixer_Agent".

Definition fix_file (f : path) (a : analysis) (iteration : nat) : M fix_result :=
  emit (EvFixCall f iteration (a_llm a)) ;;;
  if negb (fx_read E f iteration) then raise (Other "read_file failed") else
  match fx_gen E f iteration with
  | GenQuota => raise Quota
  | GenLLMError e => emit (EvLog fixer f false) ;;; ret (mk_fix false None (Some e))
  | GenOk _ =>
      (* markdown stripping and [_remove_test_code] act on the text written *)
      if negb (fx_write E f iteration)
      then emit (EvLog fixer f false) ;;; ret (mk_fix false None (Some "write_file failed"))
      else match fx_pylint E f iteration with
           | None => emit (EvLog fixer f false) ;;; ret (mk_fix false None (Some "run_pylint failed"))
           | Some np =>
               emit (EvLog fixer f true) ;;;
               ret (mk_fix true (Some (negb (Qle_bool (score np) (score (a_pylint a))))) None)
           end
  end.

(** *** [JudgeAgent] (judge.py) *)

Definition judge : string := "Judge_Agent".

Definition dirname (f : path) : path := removelast f.
Definition basename (f : path) : string := last f "".

(** Where [generate_tests] puts the test file of [f]:
    [os.path.join(dirname, 'tests')] (or ['tests']) and ['test_' + basename]. *)
Definition tests_dir_of (f : path) : path := dirname f ++ ["tests"].
Definition test_path_of (f : path) : path := tests_dir_of f ++ [("test_" ++ basename f)%string].

(** [generate_tests]: [Some test_filepath] or [None]. *)
Definition generate_tests (f : path) (iteration : nat) : M (option path) :=
  if negb (vl_read E f iteration) then raise (Other "read_file failed") else
  match vl_gen E f iteration with
  | GenQuota => raise Quota
  | GenLLMError _ => emit (EvLog judge f false) ;;; ret None
  | GenOk _ =>
      fs_add (tests_dir_of f) ;;;                        (* os.makedirs *)
      fs_add (tests_dir_of f ++ ["__init__.py"]) ;;;     (* marker file *)
      if vl_write E f iteration
      then fs_add (test_path_of f) ;;; emit (EvLog judge f true) ;;; ret (Some (test_path_of f))
      else emit (EvLog judge f false) ;;; ret None
  end.

(** [validate_code(filepath)] (no test file given). *)
Definition validate_code (f : path) (iteration : nat) : M validation :=
  emit (EvValidateCall f iteration) ;;;
  tp <- generate_tests f iteration ;;
  match tp with
  | None => ret (mk_validation f false (Some "Could not generate tests") None)
  | Some _ =>
      let tr := vl_pytest E f iteration in
      emit (EvLog judge f (passed tr)) ;;;
      ret (mk_validation f (passed tr) None (Some tr))
  end.

(** [get_failure_feedback] *)
Definition failure_feedback (v : validation) : string :=
  let out := match v_test_results v with
             | Some tr => match stdout tr with Some s => s | None => "No output" end
             | None => "No output" end in
  let err := match v_test_results v with
             | Some tr => match stderr tr with Some s => s | None => "No errors" end
             | None => "No errors" end in
  ("Test Failure Report for " ++ path_str (v_filepath v) ++ ":" ++ nl ++ nl ++
  "STDOUT:" ++ nl ++ out ++ nl ++ nl ++ "STDERR:" ++ nl ++ err ++ nl ++ nl ++
  "Please fix the code to pass these tests." ++ nl)%string.

(** *** [RefactoringOrchestrator] (orchestrator.py) *)

Definition nofix_record (a : analysis) : file_result :=
  mk_result (a_filepath a) NoFixNeeded true None (Some 0) (Some (score (a_pylint a))).
Definition fixfail_record (f : path) (it : nat) : file_result :=
  mk_result f FixFailed false None (Some it) None.
Definition success_record (f : path) (it : nat) : file_result :=
  mk_result f Success true (Some true) (Some it) None.
Definition maxiter_record (f : path) : file_result :=
  mk_result f MaxIterations false None (Some (max_iterations E)) None.
Definition quota_record (f : path) : file_result :=
  mk_result f QuotaExhausted false None None None.

(** Lines 61-73: split the analyses into [results] and [pending]. *)
Definition partition (analyses : list analysis) : M unit :=
  for_each analyses (fun a =>
    if negb (a_needs a) then terminal (a_filepath a) (nofix_record a)
    else set_pending (a_filepath a) a).

(** Lines 92-104: the repair sub-phase over a snapshot of [pending]. *)
Definition fix_loop (iteration : nat) (snap : list (path * analysis)) : M unit :=
  for_each snap (fun '(f, a) =>
    fr <- fix_file f a iteration ;;
    if fixed fr then ret tt
    else terminal f (fixfail_record f iteration) ;;; del_pending f).

Definition feedback_text (old fb : string) : string :=
  (old ++ nl ++ nl ++ "Test failure:" ++ nl ++ fb)%string.

(** Lines 107-127: the validation sub-phase; returns [failed_this_round]. *)
Fixpoint test_loop (iteration : nat) (snap : list (path * analysis)) (failed : list path)
    : M (list path) :=
  match snap with
  | [] => ret failed
  | (f, a) :: snap' =>
      v <- validate_code f iteration ;;
      if v_validated v then
        terminal f (success_record f iteration) ;;; del_pending f ;;;
        test_loop iteration snap' failed
      else
        (* [analysis] is the object stored in [pending]: the update is seen there *)
        set_pending f (set_llm a (feedback_text (a_llm a) (failure_feedback v))) ;;;
        test_loop iteration snap' (failed ++ [f])
  end.

(** Lines 84-131: [for iteration in range(1, max_iterations + 1)]; [fuel]
    counts the iterations left. *)
Fixpoint rounds (fuel iteration : nat) : M unit :=
  match fuel with
  | O => ret tt
  | S fuel' =>
      st <- get ;;
      match pending st with
      | [] => ret tt
      | snap =>
          fix_loop iteration snap ;;;
          st2 <- get ;;
          failed <- test_loop iteration (pending st2) [] ;;
          match failed with
          | [] => ret tt
          | _ => rounds fuel' (S iteration)
          end
      end
  end.

(** [for filepath in pending: results[filepath] = record(filepath)] *)
Definition stamp (mk : path -> file_result) : M unit :=
  st <- get ;; for_each (keys (pending st)) (fun f => set_result f (mk f)).

Definition is_under (dir p : path) : bool :=
  path_eqb (firstn (List.length dir) p) dir.

(** [_cleanup_tests]: [shutil.rmtree(working_dir / target_dir / 'tests')]
    (the removal is taken to succeed). *)
Definition cleanup_tests : M unit :=
  let d := target_dir E ++ ["tests"] in
  emit (EvCleanup d) ;;;
  modify (fun st => with_fs st (filter (fun p => negb (is_under d p)) (fs st))).

Definition count {A} (p : A -> bool) (l : list A) : nat := List.length (filter p l).

(** [_build_summary] *)
Definition build_summary (results : list (path * file_result)) : summary :=
  let result_list := map snd results in
  mk_summary (List.length result_list)
             (count r_validated result_list)
             (count (fun r => match r_improved r with Some true => true | _ => false end) result_list)
             result_list.

Definition finish : M run_out :=
  cleanup_tests ;;; st <- get ;; ret (OutComplete (build_summary (results st))).

(** Phase 2 with its [except QuotaExhaustedError] handler and the final
    [max_iterations] stamping. *)
Definition phase2 : M run_out :=
  try_with (rounds (max_iterations E) 1)
    (fun _ => stamp maxiter_record ;;; finish)
    (fun e => match e with
              | Quota => stamp quota_record ;;; finish
              | Other m => raise (Other m)
              end).

(** [run] *)
Definition run : M run_out :=
  try_with create_refactoring_plan
    (fun analyses =>
       match analyses with
       | [] => ret OutNoFiles
       | _ =>
           partition analyses ;;;
           st <- get ;;
           match pending st with
           | [] => finish
           | _ => phase2
           end
       end)
    (fun e => match e with
              | Quota => ret OutQuota0
              | Other m => raise (Other m)
              end).

End Workers.

Definition init_st : St := mk_st [] [] [] [].

End Engine.

(* ------------------------------------------------------------------ *)
(** ** Properties of the engine's runs *)

Module EngineSpec.
Import Llm Engine.

(** [e] is a repair or validation call on [f]. *)
Definition calls_about (f : path) (e : event) : bool :=
  match e with
  | EvFixCall g _ _ | EvValidateCall g _ => path_eqb f g
  | _ => false
  end.

(** No repair or validation call on [f] in [t]. *)
Definition no_calls (f : path) (t : list event) : Prop :=
  forall e, In e t -> calls_about f e = false.

(** The repair of [f] in round [it] returns [fixed = False] (no exception). *)
Definition fix_fails (E : env) (f : path) (it : nat) : bool :=
  fx_read E f it &&
  match fx_gen E f it with
  | GenQuota => false
  | GenLLMError _ => true
  | GenOk _ => negb (fx_write E f it) ||
               match fx_pylint E f it with None => true | Some _ => false end
  end.

(** The invariant of the orchestrator's state: [pending] has no duplicate
    key; every record written while [pending] is live is still the file's
    record, the file is out of [pending], and no later call concerns it; a
    failed repair is followed by the [fix_failed] record of its round before
    any other call on that file. *)
Record Inv (E : env) (st : St) : Prop := {
  inv_nodup : NoDup (keys (pending st));
  inv_term : forall f r t1 t2, trace st = t1 ++ EvTerminal f r :: t2 ->
      lookup (results st) f = Some r /\ ~ In f (keys (pending st)) /\ no_calls f t2;
  inv_fix : forall f it txt t1 t2, trace st = t1 ++ EvFixCall f it txt :: t2 ->
      fix_fails E f it = true ->
      exists t2a t2b, t2 = t2a ++ EvTerminal f (fixfail_record f it) :: t2b /\ no_calls f t2a }.

(** From [st] to [st']: [pending] only loses keys, the records of files
    outside [pending] are untouched, and the events added call no such file. *)
Definition shrinks (st st' : St) : Prop :=
  (forall g, In g (keys (pending st')) -> In g (keys (pending st))) /\
  (forall g, ~ In g (keys (pending st)) -> lookup (results st') g = lookup (results st) g) /\
  (exists N, trace st' = trace st ++ N /\
             forall g, ~ In g (keys (pending st)) -> no_calls g N).

(** The paths of [l] are pairwise distinct. *)
Fixpoint distinct (l : list path) : bool :=
  match l with
  | [] => true
  | x :: l' => negb (existsb (path_eqb x) l') && distinct l'
  end.

(** The repair of [f] in round [it] returns [fixed = True]. *)
Definition fix_succeeds (E : env) (f : path) (it : nat) : bool :=
  fx_read E f it &&
  match fx_gen E f it with
  | GenOk _ => fx_write E f it &&
               match fx_pylint E f it with Some _ => true | None => false end
  | _ => false
  end.

(** The analysis [analyze_file] returns for a file it keeps. *)
Definition expected_analysis (E : env) (f : path) : analysis :=
  let p := match an_pylint E f with Some p => p | None => mk_pylint 0 [] None end in
  match an_gen E f with
  | GenLLMError e =>
      mk_analysis f p ("LLM error: " ++ e ++ " - Please check your API quota.")%string
                  (needs_refactoring p) (Some e)
  | GenOk response => mk_analysis f p response (needs_refactoring p) None
  | GenQuota => mk_analysis f p "" (needs_refactoring p) None
  end.

(** [analyze_file] gets past [read_file] and [run_pylint]. *)
Definition kept (E : env) (f : path) : bool :=
  an_read E f && match an_pylint E f with Some _ => true | None => false end.

(** Every record of [results] is stored under its own [filepath]. *)
Definition wf_dict (d : list (path * file_result)) : Prop :=
  forall k v, In (k, v) d -> r_filepath v = k.

Definition results_wf (st : St) : Prop := wf_dict (results st).

End EngineSpec.

(* ------------------------------------------------------------------ *)
(** ** Concrete runs *)

Module Scenarios.
Import Llm Engine.

Definition clean_pylint : pylint_result := mk_pylint 8 [] None.
Definition bad_pylint : pylint_result := mk_pylint 5 ["C0114: Missing module docstring"] None.
Definition pass_pytest : pytest_result := mk_pytest true (Some "1 passed") None.
Definition fail_pytest : pytest_result := mk_pytest false (Some "1 failed") (Some "AssertionError").

(** [a.py] cannot be read during analysis; [b.py] is clean. *)
Definition c1_env : env :=
  mk_env [] 3 [["a.py"]; ["b.py"]]
    (fun f => negb (path_eqb f ["a.py"])) (fun _ => Some clean_pylint) (fun _ => GenOk "looks fine")
    (fun _ _ => true) (fun _ _ => GenOk "code") (fun _ _ => true) (fun _ _ => Some clean_pylint)
    (fun _ _ => true) (fun _ _ => GenOk "tests") (fun _ _ => true) (fun _ _ => pass_pytest).

(** [a.py] passes its tests in round 1, [b.py] fails them, and the repair
    of round 2 hits the quota; [c.py] is clean. *)
Definition c2_env : env :=
  mk_env [] 3 [["a.py"]; ["b.py"]; ["c.py"]]
    (fun _ => true) (fun f => if path_eqb f ["c.py"] then Some clean_pylint else Some bad_pylint)
    (fun _ => GenOk "issues")
    (fun _ _ => true) (fun _ it => if Nat.eqb it 2 then GenQuota else GenOk "code")
    (fun _ _ => true) (fun _ _ => Some bad_pylint)
    (fun _ _ => true) (fun _ _ => GenOk "tests") (fun _ _ => true)
    (fun f _ => if path_eqb f ["a.py"] then pass_pytest else fail_pytest).

(** One file whose repair leaves its score unchanged and whose tests pass. *)
Definition c3_env : env :=
  mk_env [] 3 [["b.py"]]
    (fun _ => true) (fun _ => Some bad_pylint) (fun _ => GenOk "issues")
    (fun _ _ => true) (fun _ _ => GenOk "code") (fun _ _ => true) (fun _ _ => Some bad_pylint)
    (fun _ _ => true) (fun _ _ => GenOk "tests") (fun _ _ => true) (fun _ _ => pass_pytest).

(** One file in a subdirectory of the target directory ["."]. *)
Definition c4_env : env :=
  mk_env [] 3 [["sub"; "b.py"]]
    (fun _ => true) (fun _ => Some bad_pylint) (fun _ => GenOk "issues")
    (fun _ _ => true) (fun _ _ => GenOk "code") (fun _ _ => true) (fun _ _ => Some clean_pylint)
    (fun _ _ => true) (fun _ _ => GenOk "tests") (fun _ _ => true) (fun _ _ => pass_pytest).

(** [a.py] is clean; the analysis of [b.py] hits the quota. *)
Definition c7_env : env :=
  mk_env [] 3 [["a.py"]; ["b.py"]]
    (fun _ => true) (fun _ => Some clean_pylint)
    (fun f => if path_eqb f ["b.py"] then GenQuota else GenOk "fine")
    (fun _ _ => true) (fun _ _ => GenOk "code") (fun _ _ => true) (fun _ _ => Some clean_pylint)
    (fun _ _ => true) (fun _ _ => GenOk "tests") (fun _ _ => true) (fun _ _ => pass_pytest).

(** The repair of [a.py] in round 2 fails with a model error, after its
    tests failed in round 1; [b.py] is repaired and validated in round 1. *)
Definition c8_env : env :=
  mk_env [] 3 [["a.py"]; ["b.py"]]
    (fun _ => true) (fun _ => Some bad_pylint) (fun _ => GenOk "issues")
    (fun _ _ => true)
    (fun f it => if path_eqb f ["a.py"] && Nat.eqb it 2
                 then GenLLMError "Error generating response: timeout" else GenOk "code")
    (fun _ _ => true) (fun _ _ => Some bad_pylint)
    (fun _ _ => true) (fun _ _ => GenOk "tests") (fun _ _ => true)
    (fun f _ => if path_eqb f ["a.py"] then fail_pytest else pass_pytest).

(** Test generation for [b.py] fails in round 1 with a model error. *)
Definition c10_env : env :=
  mk_env [] 3 [["b.py"]]
    (fun _ => true) (fun _ => Some bad_pylint) (fun _ => GenOk "issues")
    (fun _ _ => true) (fun _ _ => GenOk "code") (fun _ _ => true) (fun _ _ => Some bad_pylint)
    (fun _ _ => true)
    (fun _ it => if Nat.eqb it 1 then GenLLMError "Error generating response: timeout" else GenOk "tests")
    (fun _ _ => true) (fun _ _ => pass_pytest).

(** A rate-limit payload naming a delay equal to the client's default. *)
Definition c9_client : client := mk_client 3 20.
Definition c9_msg : string := "Error code: 429 - Rate limit reached. Please try again in 20s.".
Definition c9_invoke (attempt : nat) : invoke_result :=
  match attempt with
  | O | S O => InvErr c9_msg
  | _ => InvOk "ok"
  end.

End Scenarios.

(* ------------------------------------------------------------------ *)
(** ** Further properties of the code *)

Module ExtraSpec.
Import Llm Engine EngineSpec.

(** The rate-limit test of [generate] on the exception [e]. *)
Definition rate_limited (e : string) : bool :=
  let error_str := lower e in contains "429" error_str || contains "rate limit" error_str.

(** Attempt [k] of [generate] raises a rate-limit error. *)
Definition rl_err (invoke : nat -> invoke_result) (k : nat) : bool :=
  match invoke k with InvErr e => rate_limited e | InvOk _ => false end.

(** The lowered error text names no delay that [_extract_retry_delay] reads. *)
Definition no_payload_delay (e : string) : bool :=
  match search_delay "try again in " (lower e), search_delay "after " (lower e) with
  | None, None => true
  | _, _ => false
  end.

(** Attempt [k] raises a rate-limit error whose text names no delay. *)
Definition rl_plain_err (invoke : nat -> invoke_result) (k : nat) : bool :=
  match invoke k with InvErr e => rate_limited e && no_payload_delay e | InvOk _ => false end.

(** [sub] is [l] with some elements left out, the others kept in order. *)
Fixpoint is_subseq (sub l : list string) : bool :=
  match sub, l with
  | [], _ => true
  | _ :: _, [] => false
  | x :: sub', y :: l' => if String.eqb x y then is_subseq sub' l' else is_subseq sub l'
  end.

(** [status] values that [_build_summary] counts as successful, and [success]. *)
Definition validated_status (s : status) : bool :=
  match s with NoFixNeeded | Success => true | _ => false end.
Definition success_status (s : status) : bool :=
  match s with Success => true | _ => false end.

(** The [iterations] field of a final record, by status. *)
Definition iterations_ok (E : env) (r : file_result) : bool :=
  match r_status r, r_iterations r with
  | NoFixNeeded, Some n => Nat.eqb n 0
  | (FixFailed | Success), Some n => Nat.leb 1 n && Nat.leb n (max_iterations E)
  | MaxIterations, Some n => Nat.eqb n (max_iterations E)
  | QuotaExhausted, None => true
  | _, _ => false
  end.

(** The analysis of [f] gets past [read_file] and [run_pylint], and its
    model call raises [QuotaExhaustedError]. *)
Definition quota_hit (E : env) (f : path) : bool :=
  kept E f && match an_gen E f with GenQuota => true | _ => false end.

(** A repair or validation call of [e] is made in a round of [lo .. hi]. *)
Definition call_round_ok (lo hi : nat) (e : event) : bool :=
  match e with
  | EvFixCall _ it _ | EvValidateCall _ it => Nat.leb lo it && Nat.leb it hi
  | _ => true
  end.


End ExtraSpec.

(* ================================================================== *)
(** * Proofs *)

(* ------------------------------------------------------------------ *)
(** ** Lemmas on the sanitizer *)

Module SanitizerFacts.
Import Sanitizer.

Lemma lit_then_head (c : ascii) (p l : string) (k : string -> bool) :
  lit_then (String c p) l k = true -> exists l', l = String c l'.
Proof.
  unfold lit_then. destruct l as [|d l']; simpl; [discriminate|].
  destruct (Ascii.eqb c d) eqn:E; [|discriminate].
  apply Ascii.eqb_eq in E; subst; eauto.
Qed.

Lemma nonspace_head (c : ascii) (l' : string) :
  is_space c = false -> indent (String c l') = 0 /\ is_blank (String c l') = false.
Proof.
  intros H; unfold indent; simpl; rewrite H; simpl; split; [lia | reflexivity].
Qed.

(** Every line matched by an anchored pattern starts in column 0 and is not blank. *)
Lemma anchored_col0 (l : string) :
  import_re l = true \/ from_re l = true \/ class_re l = true ->
  indent l = 0 /\ is_blank l = false.
Proof.
  unfold import_re, from_re, class_re.
  intros [H|[H|H]]; apply lit_then_head in H; destruct H as [l' ->];
    apply nonspace_head; reflexivity.
Qed.

Lemma block_line_not_anchored (k : nat) (l : string) :
  (is_blank l || Nat.ltb k (indent l)) = true ->
  import_re l = false /\ from_re l = false /\ class_re l = false.
Proof.
  intros H.
  destruct (import_re l) eqn:E1; [destruct (anchored_col0 l (or_introl E1)) as [H1 H2]|];
  [rewrite H1, H2 in H; destruct k; discriminate|].
  destruct (from_re l) eqn:E2;
    [destruct (anchored_col0 l (or_intror (or_introl E2))) as [H1 H2];
     rewrite H1, H2 in H; destruct k; discriminate|].
  destruct (class_re l) eqn:E3;
    [destruct (anchored_col0 l (or_intror (or_intror E3))) as [H1 H2];
     rewrite H1, H2 in H; destruct k; discriminate|].
  auto.
Qed.

Lemma step_plain (ci : nat) (l : string) :
  plain l = true -> step (false, ci) l = ((false, ci), Some l).
Proof.
  unfold plain, is_import, is_trigger, step.
  destruct (import_re l), (from_re l), (class_re l), (contains "unittest.TestCase" l),
    (def_re l), (contains "unittest.main()" l), (contains "pytest.main()" l);
    simpl; congruence.
Qed.

Lemma step_import (st : sstate) (l : string) :
  is_import l = true -> step st l = (st, None).
Proof.
  unfold is_import, step. destruct (import_re l), (from_re l); simpl; congruence.
Qed.

Lemma step_trigger (st : sstate) (l : string) :
  is_import l = false -> is_trigger l = true -> step st l = ((true, indent l), None).
Proof.
  unfold is_import, is_trigger, step.
  destruct (import_re l), (from_re l), (class_re l || contains "unittest.TestCase" l);
    simpl; congruence.
Qed.

Lemma step_block (k : nat) (l : string) :
  (is_blank l || Nat.ltb k (indent l)) = true ->
  contains "unittest.TestCase" l = false ->
  step (true, k) l = ((true, k), None).
Proof.
  intros H Hc. destruct (block_line_not_anchored k l H) as (H1 & H2 & H3).
  unfold step. rewrite H1, H2, H3, Hc, H. reflexivity.
Qed.

Lemma step_resume (k : nat) (l : string) :
  plain l = true -> is_blank l = false -> Nat.leb (indent l) k = true ->
  step (true, k) l = ((false, k), Some l).
Proof.
  intros Hp Hb Hk.
  assert (Hlt : Nat.ltb k (indent l) = false)
    by (apply Nat.ltb_ge; apply Nat.leb_le in Hk; exact Hk).
  revert Hp. unfold plain, is_import, is_trigger, step. rewrite Hb, Hlt.
  destruct (import_re l), (from_re l), (class_re l), (contains "unittest.TestCase" l),
    (def_re l), (contains "unittest.main()" l), (contains "pytest.main()" l);
    simpl; congruence.
Qed.

Lemma run_lines_cons (st : sstate) (l : string) (ls : list string) :
  run_lines st (l :: ls) =
  match step st l with
  | (st', Some l') => l' :: run_lines st' ls
  | (st', None) => run_lines st' ls
  end.
Proof. simpl. destruct (step st l) as [st' [o|]]; reflexivity. Qed.

(** Lines that are plain or test-framework imports, run while emitting. *)
Lemma run_outside (ci : nat) (A rest : list string) :
  forallb (fun l => plain l || is_import l) A = true ->
  run_lines (false, ci) (A ++ rest) = filter plain A ++ run_lines (false, ci) rest.
Proof.
  induction A as [|a A IH]; cbn [forallb app filter]; [reflexivity|].
  intros H. apply andb_true_iff in H as [Ha HA].
  rewrite run_lines_cons.
  destruct (plain a) eqn:Hp.
  - rewrite step_plain by exact Hp. simpl. f_equal. apply IH, HA.
  - simpl in Ha. rewrite step_import by exact Ha. apply IH, HA.
Qed.

Lemma run_block (k : nat) (blk rest : list string) :
  forallb (fun l => (is_blank l || Nat.ltb k (indent l))
                    && negb (contains "unittest.TestCase" l)) blk = true ->
  run_lines (true, k) (blk ++ rest) = run_lines (true, k) rest.
Proof.
  induction blk as [|b blk IH]; cbn [forallb app]; [reflexivity|].
  intros H. apply andb_true_iff in H as [Hb HB].
  apply andb_true_iff in Hb as [Hb Hc]. apply negb_true_iff in Hc.
  rewrite run_lines_cons, step_block by assumption. apply IH, HB.
Qed.

Lemma step_emits (st st' : sstate) (l l' : string) :
  step st l = (st', Some l') -> l' = l /\ is_import l = false /\ is_trigger l = false.
Proof.
  destruct st as [s ci]. unfold step, is_import, is_trigger.
  destruct (import_re l), (from_re l), (class_re l), (contains "unittest.TestCase" l),
    (s && (is_blank l || Nat.ltb ci (indent l))), (def_re l),
    (contains "unittest.main()" l), (contains "pytest.main()" l);
    simpl; intros H; inversion H; auto.
Qed.

Lemma run_lines_clean (st : sstate) (ls : list string) (l : string) :
  In l (run_lines st ls) -> is_import l = false /\ is_trigger l = false.
Proof.
  revert st. induction ls as [|a ls IH]; intros st; simpl; [contradiction|].
  destruct (step st a) as [st' [o|]] eqn:E.
  - intros [<-|Hin]; [|eapply IH; exact Hin].
    destruct (step_emits _ _ _ _ E) as (-> & H1 & H2). auto.
  - apply IH.
Qed.

Lemma drop_blank_front_incl (ls : list string) (l : string) :
  In l (drop_blank_front ls) -> In l ls.
Proof.
  induction ls as [|a ls IH]; simpl; [auto|].
  destruct (is_blank a); simpl; auto.
Qed.

Lemma trim_trailing_incl (ls : list string) (l : string) :
  In l (trim_trailing ls) -> In l ls.
Proof.
  unfold trim_trailing. intros H.
  rewrite <- in_rev in H. apply drop_blank_front_incl in H.
  rewrite <- in_rev in H. exact H.
Qed.

End SanitizerFacts.

(* ------------------------------------------------------------------ *)
(** ** Claims on the sanitizer *)

Module SanitizerClaims.
Import Sanitizer SanitizerFacts.

(** The body used against claim C6: a test-framework import, a test class
    and a [__main__] trailer that runs the suite. *)
Definition c6_body : list string :=
  [ "import unittest";
    "class TestA(unittest.TestCase):";
    "    def test_a(self):";
    "        pass";
    "if __name__ == '__main__':";
    "    unittest.main()" ].

(** C6 (counterexample): the test-class block ends at the [if __name__]
    line (indentation 0, not deeper than the [class] line), so the line
    ["    unittest.main()"] lies outside the removed block; the sanitizer still
    drops it, so not all lines outside the block survive unchanged. *)
Lemma C6_outside_line_dropped :
  remove_test_lines c6_body = ["if __name__ == '__main__':"] /\
  In "    unittest.main()" c6_body /\
  ~ In "    unittest.main()" (remove_test_lines c6_body).
Proof.
  split; [vm_compute; reflexivity|].
  split; [simpl; tauto|].
  vm_compute. intros [H|H]; [discriminate H | exact H].
Qed.

(** C6 (amended): take a body [A ++ cls :: blk ++ B] where [cls] is a
    test-class trigger line (a column-0 [class Test...:] header or a line
    mentioning [unittest.TestCase]) that is not itself an import line, every
    line of [blk] is blank or indented deeper than [cls] and none mentions
    [unittest.TestCase], [B] is empty or starts with a non-blank plain line
    (one matching none of the sanitizer's patterns) indented no deeper than
    [cls], and every
    line of [A] and [B] is either a column-0 [import]/[from] line of
    [unittest]/[pytest] or a plain line (matching none of the sanitizer's
    patterns). Then the sanitizer returns exactly the plain lines of [A] and
    [B], unchanged and in order, with trailing blank lines trimmed; and no
    line of its output (for any input) is a test-framework import line or a
    test-class trigger line. *)
Theorem C6_remove_test_lines_block (A : list string) (cls : string)
    (blk B : list string) :
  forallb (fun l => plain l || is_import l) A = true ->
  is_import cls = false ->
  is_trigger cls = true ->
  forallb (fun l => (is_blank l || Nat.ltb (indent cls) (indent l))
                    && negb (contains "unittest.TestCase" l)) blk = true ->
  forallb (fun l => plain l || is_import l) B = true ->
  match B with
  | [] => true
  | h :: _ => plain h && negb (is_blank h) && Nat.leb (indent h) (indent cls)
  end = true ->
  remove_test_lines (A ++ cls :: blk ++ B) = trim_trailing (filter plain (A ++ B)) /\
  (forall body l, In l (remove_test_lines body) ->
                  is_import l = false /\ is_trigger l = false).
Proof.
  intros HA Hci Hct Hblk HB Hhead. split.
  - unfold remove_test_lines. f_equal.
    rewrite run_outside by exact HA.
    rewrite run_lines_cons, step_trigger by assumption.
    rewrite run_block by exact Hblk.
    rewrite filter_app. f_equal.
    destruct B as [|h B']; [reflexivity|].
    apply andb_true_iff in Hhead as [Hhead Hk]. apply andb_true_iff in Hhead as [Hp Hb].
    apply negb_true_iff in Hb.
    rewrite run_lines_cons, step_resume by assumption.
    cbn [forallb] in HB. apply andb_true_iff in HB as [_ HB'].
    simpl. rewrite Hp. f_equal.
    rewrite <- (app_nil_r B') at 1. rewrite run_outside by exact HB'.
    rewrite app_nil_r. reflexivity.
  - intros body l Hin. unfold remove_test_lines in Hin.
    apply trim_trailing_incl in Hin. eapply run_lines_clean; exact Hin.
Qed.

Lemma C6_remove_test_lines_block_witness :
  remove_test_lines
    (["import unittest"; "x = 1"] ++ "class TestA(unittest.TestCase):"
       :: ["    def test_a(self):"; "        pass"; ""] ++ ["y = 2"; ""])
  = trim_trailing (filter plain (["import unittest"; "x = 1"] ++ ["y = 2"; ""])) /\
  (forall body l, In l (remove_test_lines body) ->
                  is_import l = false /\ is_trigger l = false).
Proof.
  apply C6_remove_test_lines_block; vm_compute; reflexivity.
Defined.

End SanitizerClaims.

(* ------------------------------------------------------------------ *)
(** ** Dictionary lemmas *)

Module DictFacts.
Import Engine.

Lemma path_eqb_eq (p q : path) : path_eqb p q = true <-> p = q.
Proof.
  revert q; induction p as [|x p IH]; intros [|y q]; simpl; split; intros H;
    try discriminate; auto.
  - apply andb_true_iff in H as [H1 H2]. apply String.eqb_eq in H1.
    apply IH in H2. subst; reflexivity.
  - inversion H; subst. apply andb_true_iff; split;
      [apply String.eqb_refl | apply IH; reflexivity].
Qed.

Lemma path_eqb_refl (p : path) : path_eqb p p = true.
Proof. apply path_eqb_eq; reflexivity. Qed.

Lemma path_eqb_neq (p q : path) : p <> q -> path_eqb p q = false.
Proof.
  intros H. destruct (path_eqb p q) eqn:E; [apply path_eqb_eq in E; congruence|reflexivity].
Qed.

Section WithV.
Context {V : Type}.
Implicit Types (d : list (path * V)) (k : path) (v : V).

Lemma lookup_in d k v : lookup d k = Some v -> In k (keys d).
Proof.
  induction d as [|[k' v'] d IH]; simpl; [discriminate|].
  destruct (path_eqb k k') eqn:E; [apply path_eqb_eq in E; subst; auto|auto].
Qed.

Lemma lookup_none d k : ~ In k (keys d) -> lookup d k = None.
Proof.
  induction d as [|[k' v'] d IH]; simpl; [reflexivity|].
  intros H. destruct (path_eqb k k') eqn:E; [apply path_eqb_eq in E; subst; tauto|auto].
Qed.

Lemma in_keys_lookup d k : In k (keys d) -> exists v, lookup d k = Some v.
Proof.
  induction d as [|[k' v'] d IH]; simpl; [contradiction|].
  intros H. destruct (path_eqb k k') eqn:E; [eauto|].
  destruct H as [H|H]; [subst; rewrite path_eqb_refl in E; discriminate|auto].
Qed.

Lemma keys_dict_replace d k v : keys (dict_replace d k v) = keys d.
Proof.
  induction d as [|[k' v'] d IH]; simpl; [reflexivity|].
  destruct (path_eqb k k'); simpl; congruence.
Qed.

Lemma lookup_dict_replace_eq d k v : In k (keys d) -> lookup (dict_replace d k v) k = Some v.
Proof.
  induction d as [|[k' v'] d IH]; simpl; [contradiction|].
  intros H. destruct (path_eqb k k') eqn:E; simpl; rewrite E; [reflexivity|].
  destruct H as [H|H]; [subst; rewrite path_eqb_refl in E; discriminate|auto].
Qed.

Lemma lookup_dict_replace_neq d k v k2 : k <> k2 -> lookup (dict_replace d k v) k2 = lookup d k2.
Proof.
  intros Hne. induction d as [|[k' v'] d IH]; simpl; [reflexivity|].
  destruct (path_eqb k k') eqn:E; simpl.
  - apply path_eqb_eq in E; subst. rewrite (path_eqb_neq k2 k') by congruence. reflexivity.
  - rewrite IH. reflexivity.
Qed.

Lemma lookup_app_none d d2 k : ~ In k (keys d) -> lookup (d ++ d2) k = lookup d2 k.
Proof.
  induction d as [|[k' v'] d IH]; simpl; [reflexivity|].
  unfold keys in *; simpl. intros H.
  rewrite (path_eqb_neq k k') by (intros ->; tauto). apply IH. tauto.
Qed.

Lemma lookup_app_in d d2 k : In k (keys d) -> lookup (d ++ d2) k = lookup d k.
Proof.
  induction d as [|[k' v'] d IH]; simpl; [contradiction|].
  intros H. destruct (path_eqb k k') eqn:E; [reflexivity|].
  destruct H as [H|H]; [subst; rewrite path_eqb_refl in E; discriminate|auto].
Qed.

Lemma lookup_dict_set_eq d k v : lookup (dict_set d k v) k = Some v.
Proof.
  unfold dict_set. destruct (lookup d k) eqn:E.
  - apply lookup_dict_replace_eq. eapply lookup_in; eauto.
  - assert (~ In k (keys d)).
    { intros H. apply in_keys_lookup in H as [v' H]. congruence. }
    rewrite lookup_app_none by auto. simpl. rewrite path_eqb_refl. reflexivity.
Qed.

Lemma lookup_dict_set_neq d k v k2 : k <> k2 -> lookup (dict_set d k v) k2 = lookup d k2.
Proof.
  intros Hne. unfold dict_set. destruct (lookup d k) eqn:E.
  - apply lookup_dict_replace_neq; auto.
  - destruct (in_dec (list_eq_dec String.string_dec) k2 (keys d)) as [Hin|Hin].
    + rewrite lookup_app_in; auto.
    + rewrite lookup_app_none by auto. rewrite (lookup_none d k2 Hin). simpl.
      rewrite (path_eqb_neq k2 k) by congruence. reflexivity.
Qed.

Lemma keys_dict_set d k v x : In x (keys (dict_set d k v)) <-> x = k \/ In x (keys d).
Proof.
  unfold dict_set. destruct (lookup d k) eqn:E.
  - rewrite keys_dict_replace. split; [auto|]. intros [->|H]; auto.
    eapply lookup_in; eauto.
  - unfold keys. rewrite map_app, in_app_iff. simpl.
    split; [intros [H|[H|[]]]; auto | intros [->|H]; auto].
Qed.

Lemma nodup_dict_set d k v : NoDup (keys d) -> NoDup (keys (dict_set d k v)).
Proof.
  unfold dict_set. destruct (lookup d k) eqn:E.
  - rewrite keys_dict_replace. auto.
  - intros H. unfold keys. rewrite map_app. simpl.
    apply NoDup_app; auto using NoDup_cons, NoDup_nil.
    intros x Hx [Hy|[]]; subst.
    apply in_keys_lookup in Hx as [v' Hx]. congruence.
Qed.

Lemma keys_dict_del d k x : In x (keys (dict_del d k)) <-> In x (keys d) /\ x <> k.
Proof.
  unfold dict_del, keys. rewrite in_map_iff, in_map_iff. split.
  - intros [[x' v'] [<- Hin]]. apply filter_In in Hin as [Hin Hb]. simpl in *.
    split; [exists (x', v'); auto|].
    intros ->. rewrite path_eqb_refl in Hb. discriminate.
  - intros [[[x' v'] [Heq Hin]] Hne]. simpl in Heq; subst.
    exists (x, v'). split; [reflexivity|]. apply filter_In. split; [auto|].
    simpl. rewrite path_eqb_neq by congruence. reflexivity.
Qed.

Lemma nodup_dict_del d k : NoDup (keys d) -> NoDup (keys (dict_del d k)).
Proof.
  unfold dict_del, keys. intros H.
  induction d as [|[k' v'] d IH]; simpl in *; [constructor|].
  inversion H; subst. destruct (negb (path_eqb k k')); simpl; auto.
  constructor; auto. intros Hin. apply in_map_iff in Hin as [[x v''] [Hx Hin]].
  simpl in Hx; subst. apply filter_In in Hin as [Hin _].
  apply (in_map fst) in Hin. contradiction.
Qed.

Lemma lookup_dict_del_neq d k k2 : k <> k2 -> lookup (dict_del d k) k2 = lookup d k2.
Proof.
  intros Hne. unfold dict_del.
  induction d as [|[k' v'] d IH]; simpl; [reflexivity|].
  destruct (path_eqb k k') eqn:E; simpl.
  - apply path_eqb_eq in E; subst. rewrite (path_eqb_neq k2 k') by congruence. auto.
  - rewrite IH. reflexivity.
Qed.

End WithV.

(** Splitting a decomposition of [T ++ N]. *)
Lemma app_decomp {A} (T N t1 t2 : list A) (x : A) :
  T ++ N = t1 ++ x :: t2 ->
  (exists t2', t2 = t2' ++ N /\ T = t1 ++ x :: t2') \/
  (exists n1, N = n1 ++ x :: t2 /\ t1 = T ++ n1).
Proof.
  intros H. apply app_eq_app in H as [l [[H1 H2]|[H1 H2]]].
  - destruct l as [|y l].
    + right. exists []. simpl in H2. rewrite app_nil_r in H1. simpl.
      rewrite app_nil_r. split; symmetry; assumption.
    + left. simpl in H2. inversion H2; subst. exists l. split; auto.
  - right. exists l. split; auto.
Qed.

End DictFacts.

(* ------------------------------------------------------------------ *)
(** ** The orchestrator's invariant *)

Module EngineFacts.
Import Llm Engine EngineSpec DictFacts.

Lemma no_calls_nil f : no_calls f [].
Proof. intros e []. Qed.

Lemma no_calls_app f t1 t2 : no_calls f t1 -> no_calls f t2 -> no_calls f (t1 ++ t2).
Proof. intros H1 H2 e He. apply in_app_iff in He as [He|He]; auto. Qed.

Lemma no_calls_app_inv f t1 t2 : no_calls f (t1 ++ t2) -> no_calls f t1 /\ no_calls f t2.
Proof. intros H. split; intros e He; apply H; apply in_app_iff; auto. Qed.

Lemma shrinks_refl st : shrinks st st.
Proof.
  split; [auto|split; [auto|]]. exists []. split; [rewrite app_nil_r; reflexivity|].
  intros; apply no_calls_nil.
Qed.

Lemma shrinks_trans st1 st2 st3 : shrinks st1 st2 -> shrinks st2 st3 -> shrinks st1 st3.
Proof.
  intros (P1 & R1 & N1 & T1 & C1) (P2 & R2 & N2 & T2 & C2).
  split; [auto|split].
  - intros g Hg. rewrite R2, R1; auto.
  - exists (N1 ++ N2). split; [rewrite T2, T1, app_assoc; reflexivity|].
    intros g Hg. apply no_calls_app; auto.
Qed.

Lemma inv_extend E st st' N :
  Inv E st ->
  trace st' = trace st ++ N ->
  (forall g, In g (keys (pending st')) -> In g (keys (pending st))) ->
  (forall g, ~ In g (keys (pending st)) -> lookup (results st') g = lookup (results st) g) ->
  (forall g, ~ In g (keys (pending st)) -> no_calls g N) ->
  NoDup (keys (pending st')) ->
  (forall f r t1 t2, N = t1 ++ EvTerminal f r :: t2 ->
      lookup (results st') f = Some r /\ ~ In f (keys (pending st')) /\ no_calls f t2) ->
  (forall f it txt t1 t2, N = t1 ++ EvFixCall f it txt :: t2 -> fix_fails E f it = true ->
      exists t2a t2b, t2 = t2a ++ EvTerminal f (fixfail_record f it) :: t2b /\ no_calls f t2a) ->
  Inv E st' /\ shrinks st st'.
Proof.
  intros I Ht Hp Hr Hc Hnd Hm Hf.
  split; [|split; [exact Hp|split; [exact Hr|exists N; split; assumption]]].
  constructor; [exact Hnd| |].
  - intros f r t1 t2 H. rewrite Ht in H.
    apply app_decomp in H as [[t2' [-> H]]|[n1 [H ->]]].
    + destruct (inv_term _ _ I _ _ _ _ H) as (H1 & H2 & H3).
      split; [rewrite Hr; auto|split; [intros Hin; apply H2; auto|]].
      apply no_calls_app; auto.
    + eapply Hm; eauto.
  - intros f it txt t1 t2 H Hff. rewrite Ht in H.
    apply app_decomp in H as [[t2' [-> H]]|[n1 [H ->]]].
    + destruct (inv_fix _ _ I _ _ _ _ _ H Hff) as (t2a & t2b & -> & Hn).
      exists t2a, (t2b ++ N). split; [rewrite <- app_assoc; reflexivity|exact Hn].
    + eapply Hf; eauto.
Qed.

(** The events a step may add without writing a record. *)
Definition plain_event (E : env) (st : St) (e : event) : Prop :=
  match e with
  | EvTerminal _ _ => False
  | EvFixCall g it _ => In g (keys (pending st)) /\ fix_fails E g it = false
  | EvValidateCall g _ => In g (keys (pending st))
  | _ => True
  end.

Lemma plain_no_calls E st N g :
  (forall e, In e N -> plain_event E st e) -> ~ In g (keys (pending st)) -> no_calls g N.
Proof.
  intros H Hg e He. specialize (H e He). unfold calls_about.
  destruct e; simpl in H; auto;
    (destruct (path_eqb g f) eqn:Eq; [apply path_eqb_eq in Eq; subst; tauto|reflexivity]).
Qed.

Lemma inv_plain E st st' N :
  Inv E st ->
  trace st' = trace st ++ N ->
  pending st' = pending st ->
  results st' = results st ->
  (forall e, In e N -> plain_event E st e) ->
  Inv E st' /\ shrinks st st'.
Proof.
  intros I Ht Hp Hr HN. apply (inv_extend E st st' N I Ht).
  - rewrite Hp; auto.
  - rewrite Hr; auto.
  - intros g Hg. eapply plain_no_calls; eauto.
  - rewrite Hp. apply (inv_nodup _ _ I).
  - intros f r t1 t2 H. exfalso. apply (HN (EvTerminal f r)). rewrite H.
    apply in_elt.
  - intros f it txt t1 t2 H Hff. exfalso.
    assert (Hin : In (EvFixCall f it txt) N) by (rewrite H; apply in_elt).
    specialize (HN _ Hin). simpl in HN. destruct HN as [_ HN]. congruence.
Qed.

(** A call on [f], some log lines, and the write of [f]'s record with
    [f] leaving [pending]. *)
Lemma inv_close E st st' c L f r :
  Inv E st ->
  In f (keys (pending st)) ->
  trace st' = trace st ++ c :: L ++ [EvTerminal f r] ->
  pending st' = dict_del (pending st) f ->
  results st' = dict_set (results st) f r ->
  (forall e, In e L -> exists ag g b, e = EvLog ag g b) ->
  match c with
  | EvFixCall g it _ => g = f /\ (fix_fails E f it = true -> r = fixfail_record f it)
  | EvValidateCall g _ => g = f
  | _ => False
  end ->
  Inv E st' /\ shrinks st st'.
Proof.
  intros I Hf Ht Hp Hr HL Hc.
  assert (HL' : forall g, no_calls g L).
  { intros g e He. destruct (HL e He) as (ag & g' & b & ->). reflexivity. }
  assert (Hcg : forall g, calls_about g c = true -> g = f).
  { intros g H. destruct c; try contradiction; simpl in H;
      apply path_eqb_eq in H; subst; try tauto. }
  apply (inv_extend E st st' (c :: L ++ [EvTerminal f r]) I Ht).
  - intros g. rewrite Hp, keys_dict_del. tauto.
  - intros g Hg. rewrite Hr. apply lookup_dict_set_neq. intros ->. contradiction.
  - intros g Hg e [He|He].
    + subst e. destruct (calls_about g c) eqn:Eq; [|reflexivity].
      apply Hcg in Eq. subst; contradiction.
    + apply in_app_iff in He as [He|[He|[]]]; [apply HL'; auto|subst; reflexivity].
  - rewrite Hp. apply nodup_dict_del, (inv_nodup _ _ I).
  - intros g r' t1 t2 H. rewrite app_comm_cons in H.
    apply app_decomp in H as [[t2' [-> H]]|[n1 [H ->]]].
    + exfalso. destruct t1 as [|e t1]; simpl in H; inversion H; subst.
      * simpl in Hc; contradiction.
      * destruct (HL (EvTerminal g r')) as (? & ? & ? & ?); [apply in_elt|discriminate].
    + destruct n1 as [|e [|e' n1]]; simpl in H; inversion H; subst.
      split; [rewrite Hr; apply lookup_dict_set_eq|].
      split; [rewrite Hp, keys_dict_del; tauto|apply no_calls_nil].
  - intros g it txt t1 t2 H Hff. rewrite app_comm_cons in H.
    apply app_decomp in H as [[t2' [-> H]]|[n1 [H ->]]].
    + destruct t1 as [|e t1]; simpl in H; inversion H; subst.
      * destruct Hc as [-> Hc]. rewrite (Hc Hff). eexists _, []. split; [reflexivity|apply HL'].
      * exfalso. destruct (HL (EvFixCall g it txt)) as (? & ? & ? & ?);
          [apply in_elt|discriminate].
    + exfalso. destruct n1 as [|e [|e' n1]]; simpl in H; inversion H.
Qed.

Ltac env_rewrite :=
  repeat match goal with
  | H : fx_read _ _ _ = _ |- _ => rewrite H; clear H
  | H : fx_gen _ _ _ = _ |- _ => rewrite H; clear H
  | H : fx_write _ _ _ = _ |- _ => rewrite H; clear H
  | H : fx_pylint _ _ _ = _ |- _ => rewrite H; clear H
  end.

Ltac plain_events :=
  intros ? He; simpl in He; repeat destruct He as [<-|He]; try contradiction; simpl; auto;
  try (split; [assumption|unfold fix_fails; env_rewrite; reflexivity]).

Ltac by_plain N :=
  match goal with |- Inv ?E ?s /\ shrinks ?st ?s /\ _ =>
    let I' := fresh "I" in let S' := fresh "S" in
    destruct (inv_plain E st s N) as [I' S'];
    [ assumption | simpl; rewrite <- ?app_assoc; reflexivity | reflexivity | reflexivity
    | plain_events
    | split; [exact I'|split; [exact S'|simpl; auto]] ]
  end.

Ltac by_close c L f r :=
  match goal with |- Inv ?E ?s /\ shrinks ?st ?s /\ _ =>
    let I' := fresh "I" in let S' := fresh "S" in
    destruct (inv_close E st s c L f r) as [I' S'];
    [ assumption | assumption | simpl; rewrite <- ?app_assoc; reflexivity
    | reflexivity | reflexivity
    | intros ? He; simpl in He; repeat destruct He as [<-|He]; try contradiction; eauto
    | simpl; split; [reflexivity|intros; reflexivity]
    | split; [exact I'|split; [exact S'|simpl; intros ? ? ?; apply keys_dict_del; auto]] ]
  end.

Lemma fix_body_inv E it f a st :
  Inv E st -> In f (keys (pending st)) ->
  let st' := snd ((fr <- fix_file E f a it ;;
                   if fixed fr then ret tt
                   else terminal f (fixfail_record f it) ;;; del_pending f) st) in
  Inv E st' /\ shrinks st st' /\
  (forall g, g <> f -> In g (keys (pending st)) -> In g (keys (pending st'))).
Proof.
  intros I Hf. unfold bind, fix_file, emit, modify, raise, ret, terminal, set_result, del_pending.
  destruct (fx_read E f it) eqn:Er; simpl.
  - destruct (fx_gen E f it) eqn:Eg; simpl.
    + destruct (fx_write E f it) eqn:Ew; simpl.
      * destruct (fx_pylint E f it) eqn:Ep; simpl.
        -- by_plain [EvFixCall f it (a_llm a); EvLog fixer f true].
        -- by_close (EvFixCall f it (a_llm a)) [EvLog fixer f false] f (fixfail_record f it).
      * by_close (EvFixCall f it (a_llm a)) [EvLog fixer f false] f (fixfail_record f it).
    + by_close (EvFixCall f it (a_llm a)) [EvLog fixer f false] f (fixfail_record f it).
    + by_plain [EvFixCall f it (a_llm a)].
  - by_plain [EvFixCall f it (a_llm a)].
Qed.

Lemma inv_update E st st' N f a' :
  Inv E st -> In f (keys (pending st)) ->
  trace st' = trace st ++ N ->
  pending st' = dict_set (pending st) f a' ->
  results st' = results st ->
  (forall e, In e N -> plain_event E st e) ->
  Inv E st' /\ shrinks st st'.
Proof.
  intros I Hf Ht Hp Hr HN. apply (inv_extend E st st' N I Ht).
  - intros g. rewrite Hp, keys_dict_set. intros [->|H]; auto.
  - rewrite Hr; auto.
  - intros g Hg. eapply plain_no_calls; eauto.
  - rewrite Hp. apply nodup_dict_set, (inv_nodup _ _ I).
  - intros g r t1 t2 H. exfalso. apply (HN (EvTerminal g r)). rewrite H. apply in_elt.
  - intros g it txt t1 t2 H Hff. exfalso.
    assert (Hin : In (EvFixCall g it txt) N) by (rewrite H; apply in_elt).
    specialize (HN _ Hin). simpl in HN. destruct HN as [_ HN]. congruence.
Qed.

Lemma keys_cons_nodup {A} (f : path) (a : A) snap :
  NoDup (keys ((f, a) :: snap)) -> ~ In f (keys snap) /\ NoDup (keys snap).
Proof. intros H. inversion H; subst. auto. Qed.

Lemma for_each_inv {A} E (key : A -> path) (body : A -> M unit) :
  (forall x st, Inv E st -> In (key x) (keys (pending st)) ->
     Inv E (snd (body x st)) /\ shrinks st (snd (body x st)) /\
     (forall g, g <> key x -> In g (keys (pending st)) -> In g (keys (pending (snd (body x st)))))) ->
  forall l st, Inv E st -> NoDup (map key l) ->
    (forall x, In x l -> In (key x) (keys (pending st))) ->
    Inv E (snd (for_each l body st)) /\ shrinks st (snd (for_each l body st)).
Proof.
  intros Hb l. induction l as [|x l IH]; intros st I Hnd Hin.
  - split; [exact I|apply shrinks_refl].
  - simpl. unfold bind. inversion Hnd; subst.
    destruct (Hb x st I (Hin x (or_introl eq_refl))) as (I1 & S1 & P1).
    destruct (body x st) as [[u|e] st1] eqn:Eb; simpl in *.
    + destruct (IH st1 I1) as [I2 S2]; auto.
      * intros y Hy. apply P1; [|apply Hin; auto].
        intros Heq. apply H1. rewrite <- Heq. apply in_map; auto.
      * split; [exact I2|eapply shrinks_trans; eauto].
    + split; auto.
Qed.

Lemma fix_loop_inv E it snap st :
  Inv E st -> NoDup (keys snap) -> (forall g, In g (keys snap) -> In g (keys (pending st))) ->
  Inv E (snd (fix_loop E it snap st)) /\ shrinks st (snd (fix_loop E it snap st)).
Proof.
  intros I Hnd Hin. unfold fix_loop.
  apply (for_each_inv E fst); auto.
  - intros [f a] st0 I0 Hf. apply fix_body_inv; auto.
  - intros [f a] Hx. apply Hin. apply (in_map fst _ _ Hx).
Qed.

Ltac by_update N f a' :=
  match goal with |- Inv ?E (snd (test_loop _ _ _ _ ?s)) /\ shrinks ?st _ =>
    let I' := fresh "I" in let S' := fresh "S" in
    destruct (inv_update E st s N f a') as [I' S'];
    [ assumption | assumption | simpl; rewrite <- ?app_assoc; reflexivity
    | reflexivity | reflexivity | plain_events | ]
  end.

Ltac raise_plain N :=
  match goal with |- Inv ?E ?s /\ shrinks ?st ?s =>
    apply (inv_plain E st s N);
    [ assumption | simpl; rewrite <- ?app_assoc; reflexivity | reflexivity | reflexivity
    | plain_events ]
  end.

Ltac update_then IH Hnd Hrest N f :=
  match goal with |- Inv ?E (snd (test_loop _ _ _ ?fl ?s)) /\ shrinks ?st _ =>
    let I1 := fresh "I" in let S1 := fresh "S" in
    let I2 := fresh "I" in let S2 := fresh "S" in
    edestruct (inv_update E st s N f) as [I1 S1];
    [ assumption | assumption | simpl; rewrite <- ?app_assoc; reflexivity
    | reflexivity | reflexivity | plain_events | ];
    destruct (IH fl s I1 Hnd) as [I2 S2];
    [ apply Hrest; simpl; intros ? _ Hg; apply keys_dict_set; auto
    | split; [exact I2|eapply shrinks_trans; eauto] ]
  end.

Ltac close_then IH Hnd Hrest c L f r :=
  match goal with |- Inv ?E (snd (test_loop _ _ _ ?fl ?s)) /\ shrinks ?st _ =>
    let I1 := fresh "I" in let S1 := fresh "S" in
    let I2 := fresh "I" in let S2 := fresh "S" in
    destruct (inv_close E st s c L f r) as [I1 S1];
    [ assumption | assumption | simpl; rewrite <- ?app_assoc; reflexivity
    | reflexivity | reflexivity
    | intros ? He; simpl in He; repeat destruct He as [<-|He]; try contradiction; eauto
    | reflexivity | ];
    destruct (IH fl s I1 Hnd) as [I2 S2];
    [ apply Hrest; simpl; intros ? ? ?; apply keys_dict_del; auto
    | split; [exact I2|eapply shrinks_trans; eauto] ]
  end.

Lemma test_loop_inv E it snap : forall failed st,
  Inv E st -> NoDup (keys snap) -> (forall g, In g (keys snap) -> In g (keys (pending st))) ->
  Inv E (snd (test_loop E it snap failed st)) /\ shrinks st (snd (test_loop E it snap failed st)).
Proof.
  induction snap as [|[f a] snap IH]; intros failed st I Hnd Hin.
  - split; [exact I|apply shrinks_refl].
  - apply keys_cons_nodup in Hnd as [Hf Hnd].
    assert (Hfp : In f (keys (pending st))) by (apply Hin; left; reflexivity).
    assert (Hrest : forall st1, (forall g, g <> f -> In g (keys (pending st)) -> In g (keys (pending st1))) ->
              forall g, In g (keys snap) -> In g (keys (pending st1))).
    { intros st1 H g Hg. apply H; [intros ->; contradiction|apply Hin; right; exact Hg]. }
    simpl. unfold bind, validate_code, generate_tests, fs_add, emit, modify, raise, ret,
      terminal, set_result, del_pending, set_pending.
    destruct (vl_read E f it) eqn:Er; simpl.
    + destruct (vl_gen E f it) eqn:Eg; simpl.
      * destruct (vl_write E f it) eqn:Ew; simpl.
        -- destruct (passed (vl_pytest E f it)) eqn:Ep; simpl.
           ++ close_then IH Hnd Hrest (EvValidateCall f it) [EvLog judge f true; EvLog judge f true]
                f (success_record f it).
           ++ update_then IH Hnd Hrest
                [EvValidateCall f it; EvLog judge f true; EvLog judge f false] f.
        -- update_then IH Hnd Hrest [EvValidateCall f it; EvLog judge f false] f.
      * update_then IH Hnd Hrest [EvValidateCall f it; EvLog judge f false] f.
      * raise_plain [EvValidateCall f it].
    + raise_plain [EvValidateCall f it].
Qed.

Lemma rounds_inv E fuel : forall it st,
  Inv E st -> Inv E (snd (rounds E fuel it st)) /\ shrinks st (snd (rounds E fuel it st)).
Proof.
  induction fuel as [|fuel IH]; intros it st I; simpl.
  - split; [exact I|apply shrinks_refl].
  - unfold get, bind. cbv beta. destruct (pending st) as [|p l] eqn:Ep.
    + split; [exact I|apply shrinks_refl].
    + destruct (fix_loop_inv E it (p :: l) st I) as [I1 S1].
      { rewrite <- Ep. apply (inv_nodup _ _ I). }
      { rewrite <- Ep. auto. }
      destruct (fix_loop E it (p :: l) st) as [[u|e] st1]; simpl in *; [|auto].
      destruct (test_loop_inv E it (pending st1) [] st1 I1) as [I2 S2];
        [apply (inv_nodup _ _ I1)|auto|].
      destruct (test_loop E it (pending st1) [] st1) as [[fl|e] st2]; simpl in *;
        [|split; [auto|eapply shrinks_trans; eauto]].
      destruct fl as [|g fl].
      * split; [auto|eapply shrinks_trans; eauto].
      * destruct (IH (S it) st2 I2) as [I3 S3].
        split; [auto|eapply shrinks_trans; eauto; eapply shrinks_trans; eauto].
Qed.

Lemma stamp_inv E mk st :
  Inv E st -> Inv E (snd (stamp mk st)) /\ shrinks st (snd (stamp mk st)).
Proof.
  intros I. unfold stamp, get, bind.
  apply (for_each_inv E (fun x => x)); auto.
  - intros g st0 I0 Hg. unfold set_result, modify. simpl.
    match goal with |- Inv _ ?s /\ shrinks ?s0 ?s /\ _ =>
      destruct (inv_extend E s0 s [] I0) as [I1 S1] end.
    + simpl. rewrite app_nil_r. reflexivity.
    + auto.
    + simpl. intros h Hh. apply lookup_dict_set_neq. intros ->. contradiction.
    + intros; apply no_calls_nil.
    + apply (inv_nodup _ _ I0).
    + intros ? ? t1 t2 H. destruct t1; discriminate.
    + intros ? ? ? t1 t2 H. destruct t1; discriminate.
    + split; [exact I1|split; [exact S1|auto]].
  - rewrite map_id. apply (inv_nodup _ _ I).
Qed.

Lemma finish_inv E st :
  Inv E st -> Inv E (snd (finish E st)) /\ shrinks st (snd (finish E st)).
Proof.
  intros I. unfold finish, cleanup_tests, emit, modify, get, bind, ret. simpl.
  match goal with |- Inv _ ?s /\ shrinks _ ?s =>
    apply (inv_plain E st s [EvCleanup (target_dir E ++ ["tests"])]) end;
    [assumption|reflexivity|reflexivity|reflexivity|plain_events].
Qed.

Lemma stamp_finish_inv E mk st :
  Inv E st -> Inv E (snd ((stamp mk ;;; finish E) st)) /\ shrinks st (snd ((stamp mk ;;; finish E) st)).
Proof.
  intros I. unfold bind. cbv beta.
  destruct (stamp_inv E mk st I) as [I1 S1].
  destruct (stamp mk st) as [[u|e] st1]; simpl in *; [|auto].
  destruct (finish_inv E st1 I1) as [I2 S2]. split; [auto|eapply shrinks_trans; eauto].
Qed.

Lemma phase2_inv E st :
  Inv E st -> Inv E (snd (phase2 E st)) /\ shrinks st (snd (phase2 E st)).
Proof.
  intros I. unfold phase2, try_with.
  destruct (rounds_inv E (max_iterations E) 1 st I) as [I1 S1].
  destruct (rounds E (max_iterations E) 1 st) as [[u|[|m]] st1]; simpl in *.
  - destruct (stamp_finish_inv E (maxiter_record E) st1 I1) as [I2 S2].
    split; [auto|eapply shrinks_trans; eauto].
  - destruct (stamp_finish_inv E quota_record st1 I1) as [I2 S2].
    split; [auto|eapply shrinks_trans; eauto].
  - unfold raise. simpl. auto.
Qed.

(** The events of Phase 1's analysis loop. *)
Definition phase1_event (e : event) : Prop :=
  match e with EvAnalyzeCall _ | EvLog _ _ _ => True | _ => False end.

Lemma plan_loop_spec E fs : forall acc st,
  let r := plan_loop E fs acc st in
  pending (snd r) = pending st /\ results (snd r) = results st /\
  (exists N, trace (snd r) = trace st ++ N /\ forall e, In e N -> phase1_event e) /\
  (fst r = Raise Quota \/ fst r = Ok (acc ++ map (expected_analysis E) (filter (kept E) fs))).
Proof.
  induction fs as [|f fs IH]; intros acc st; simpl.
  - split; [reflexivity|split; [reflexivity|split]].
    + exists []. split; [rewrite app_nil_r; reflexivity|intros _ []].
    + right. rewrite app_nil_r. reflexivity.
  - unfold try_with, analyze_file, bind, emit, modify, raise, ret.
    destruct (an_read E f) eqn:Er; simpl.
    + destruct (an_pylint E f) as [p|] eqn:Ep; simpl.
      * assert (Hk : kept E f = true) by (unfold kept; rewrite Er, Ep; reflexivity).
        rewrite Hk.
        destruct (an_gen E f) eqn:Eg; simpl.
        -- match goal with |- context [plan_loop E fs ?acc' ?s] =>
             destruct (IH acc' s) as (P & R & (N & T & HN) & O) end.
           simpl in *. split; [exact P|split; [exact R|split]].
           ++ exists ([EvAnalyzeCall f; EvLog auditor f true] ++ N).
              rewrite T, <- !app_assoc. split; [reflexivity|].
              intros e He. apply in_app_iff in He as [[<-|[<-|[]]]|He]; simpl; auto.
           ++ destruct O as [O|O]; [left; exact O|right; rewrite O, <- app_assoc].
              unfold expected_analysis. rewrite Ep, Eg. reflexivity.
        -- match goal with |- context [plan_loop E fs ?acc' ?s] =>
             destruct (IH acc' s) as (P & R & (N & T & HN) & O) end.
           simpl in *. split; [exact P|split; [exact R|split]].
           ++ exists ([EvAnalyzeCall f; EvLog auditor f false] ++ N).
              rewrite T, <- !app_assoc. split; [reflexivity|].
              intros e He. apply in_app_iff in He as [[<-|[<-|[]]]|He]; simpl; auto.
           ++ destruct O as [O|O]; [left; exact O|right; rewrite O, <- app_assoc].
              unfold expected_analysis. rewrite Ep, Eg. reflexivity.
        -- split; [reflexivity|split; [reflexivity|split]].
           ++ exists [EvAnalyzeCall f]. split; [reflexivity|].
              intros e [<-|[]]; simpl; auto.
           ++ left; reflexivity.
      * assert (Hk : kept E f = false) by (unfold kept; rewrite Er, Ep; reflexivity).
        rewrite Hk.
        match goal with |- context [plan_loop E fs ?acc' ?s] =>
          destruct (IH acc' s) as (P & R & (N & T & HN) & O) end.
        simpl in *. split; [exact P|split; [exact R|split]].
        -- exists ([EvAnalyzeCall f; EvLog auditor f false] ++ N).
           rewrite T, <- !app_assoc. split; [reflexivity|].
           intros e He. apply in_app_iff in He as [[<-|[<-|[]]]|He]; simpl; auto.
        -- exact O.
    + assert (Hk : kept E f = false) by (unfold kept; rewrite Er; reflexivity).
      rewrite Hk.
      match goal with |- context [plan_loop E fs ?acc' ?s] =>
        destruct (IH acc' s) as (P & R & (N & T & HN) & O) end.
      simpl in *. split; [exact P|split; [exact R|split]].
      * exists ([EvAnalyzeCall f; EvLog auditor f false] ++ N).
        rewrite T, <- !app_assoc. split; [reflexivity|].
        intros e He. apply in_app_iff in He as [[<-|[<-|[]]]|He]; simpl; auto.
      * exact O.
Qed.

Lemma plan_spec E :
  let r := create_refactoring_plan E init_st in
  pending (snd r) = [] /\ results (snd r) = [] /\
  (forall e, In e (trace (snd r)) -> phase1_event e) /\
  (fst r = Raise Quota \/ fst r = Ok (map (expected_analysis E) (filter (kept E) (files E)))).
Proof.
  unfold create_refactoring_plan. destruct (files E) as [|f fs] eqn:Ef.
  - simpl. split; [reflexivity|split; [reflexivity|split; [intros _ []|right; reflexivity]]].
  - rewrite <- Ef. destruct (plan_loop_spec E (files E) [] init_st) as (P & R & (N & T & HN) & O).
    rewrite P, R, T. simpl. split; [reflexivity|split; [reflexivity|split; [exact HN|exact O]]].
Qed.

Lemma inv_phase1 E st :
  pending st = [] -> results st = [] -> (forall e, In e (trace st) -> phase1_event e) -> Inv E st.
Proof.
  intros P R T. constructor.
  - rewrite P. constructor.
  - intros f r t1 t2 H. exfalso. apply (T (EvTerminal f r)). rewrite H. apply in_elt.
  - intros f it txt t1 t2 H. exfalso. apply (T (EvFixCall f it txt)). rewrite H. apply in_elt.
Qed.

Lemma phase1_no_calls st :
  (forall e, In e (trace st) -> phase1_event e) -> forall g, no_calls g (trace st).
Proof. intros T g e He. specialize (T e He). destruct e; simpl in T; tauto. Qed.

Lemma inv_fresh_terminal E st st' f r :
  Inv E st -> ~ In f (keys (pending st)) -> ~ In f (keys (results st)) ->
  trace st' = trace st ++ [EvTerminal f r] -> pending st' = pending st ->
  results st' = dict_set (results st) f r -> Inv E st'.
Proof.
  intros I Hp Hr Ht Hp' Hr'. constructor.
  - rewrite Hp'. apply (inv_nodup _ _ I).
  - intros g r' t1 t2 H. rewrite Ht in H.
    apply app_decomp in H as [[t2' [-> H]]|[n1 [H ->]]].
    + destruct (inv_term _ _ I _ _ _ _ H) as (H1 & H2 & H3).
      assert (g <> f) by (intros ->; apply Hr; eapply lookup_in; eauto).
      rewrite Hr', Hp', lookup_dict_set_neq by auto.
      split; [exact H1|split; [exact H2|]]. apply no_calls_app; [exact H3|].
      intros e [<-|[]]. reflexivity.
    + destruct n1 as [|e [|e' n1]]; simpl in H; inversion H; subst.
      rewrite Hr', Hp'. split; [apply lookup_dict_set_eq|split; [exact Hp|apply no_calls_nil]].
  - intros g it txt t1 t2 H Hff. rewrite Ht in H.
    apply app_decomp in H as [[t2' [-> H]]|[n1 [H ->]]].
    + destruct (inv_fix _ _ I _ _ _ _ _ H Hff) as (t2a & t2b & -> & Hn).
      exists t2a, (t2b ++ [EvTerminal f r]). split; [rewrite <- app_assoc; reflexivity|exact Hn].
    + exfalso. destruct n1 as [|e [|e' n1]]; simpl in H; inversion H.
Qed.

Lemma inv_fresh_pending E st st' f a :
  Inv E st -> ~ In f (keys (results st)) ->
  trace st' = trace st -> pending st' = dict_set (pending st) f a ->
  results st' = results st -> Inv E st'.
Proof.
  intros I Hr Ht Hp' Hr'. constructor.
  - rewrite Hp'. apply nodup_dict_set, (inv_nodup _ _ I).
  - intros g r' t1 t2 H. rewrite Ht in H.
    destruct (inv_term _ _ I _ _ _ _ H) as (H1 & H2 & H3).
    assert (g <> f) by (intros ->; apply Hr; eapply lookup_in; eauto).
    rewrite Hr', Hp', keys_dict_set. split; [exact H1|split; [intros [?|?]; auto|exact H3]].
  - intros g it txt t1 t2 H Hff. rewrite Ht in H. exact (inv_fix _ _ I _ _ _ _ _ H Hff).
Qed.

Lemma partition_spec E rem : forall st,
  Inv E st -> (forall g, no_calls g (trace st)) ->
  NoDup (map a_filepath rem) ->
  (forall a, In a rem -> ~ In (a_filepath a) (keys (pending st)) /\
                         ~ In (a_filepath a) (keys (results st))) ->
  let st' := snd (partition rem st) in
  fst (partition rem st) = Ok tt /\
  Inv E st' /\ (forall g, no_calls g (trace st')) /\
  (forall g, ~ In g (map a_filepath rem) ->
     lookup (results st') g = lookup (results st) g /\
     (In g (keys (pending st')) <-> In g (keys (pending st)))) /\
  (forall a, In a rem -> a_needs a = false ->
     lookup (results st') (a_filepath a) = Some (nofix_record a) /\
     ~ In (a_filepath a) (keys (pending st'))).
Proof.
  unfold partition.
  set (body := fun a : analysis =>
         if negb (a_needs a) then terminal (a_filepath a) (nofix_record a)
         else set_pending (a_filepath a) a).
  induction rem as [|a rem IH]; intros st I C Hnd Hfr; simpl.
  - split; [reflexivity|split; [exact I|split; [exact C|split; [tauto|intros _ []]]]].
  - inversion Hnd as [|? ? Ha Hnd']; subst.
    destruct (Hfr a (or_introl eq_refl)) as [Hap Har].
    unfold bind.
    destruct (a_needs a) eqn:En.
    + (* pending[f] = analysis *)
      assert (Hb : body a st = (Ok tt, with_pending st (dict_set (pending st) (a_filepath a) a)))
        by (unfold body; rewrite En; reflexivity).
      rewrite Hb. cbv beta iota.
      match goal with |- context [for_each rem ?b ?s] =>
        assert (I1 : Inv E s) by
          (apply (inv_fresh_pending E st s (a_filepath a) a); auto);
        destruct (IH s I1) as (O & I2 & C2 & F2 & M2) end.
      * exact C.
      * exact Hnd'.
      * intros a' Ha'. simpl. rewrite keys_dict_set.
        assert (a_filepath a' <> a_filepath a) by (intros Heq; apply Ha; rewrite <- Heq; apply in_map; auto).
        destruct (Hfr a' (or_intror Ha')) as [H1 H2]. split; [intros [?|?]; auto|auto].
      * split; [exact O|split; [exact I2|split; [exact C2|split]]].
        -- intros g Hg. destruct (F2 g (fun H => Hg (or_intror H))) as [F3 F4].
           unfold with_trace, with_results, with_pending in *; cbn [results pending trace fs] in *. rewrite F3, F4, keys_dict_set. split; [reflexivity|].
           split; [intros [->|H]; [exfalso; apply Hg; left; reflexivity|exact H]|auto].
        -- intros a' [<-|Ha'] Hn; [congruence|]. apply M2; auto.
    + (* results[f] = no_fix_needed record *)
      assert (Hb : body a st =
        (Ok tt, with_trace (with_results st (dict_set (results st) (a_filepath a) (nofix_record a)))
                  (trace st ++ [EvTerminal (a_filepath a) (nofix_record a)])))
        by (unfold body, terminal, set_result, emit, modify, bind; rewrite En; reflexivity).
      rewrite Hb. cbv beta iota.
      match goal with |- context [for_each rem ?b ?s] =>
        assert (I1 : Inv E s) by
          (apply (inv_fresh_terminal E st s (a_filepath a) (nofix_record a)); auto);
        destruct (IH s I1) as (O & I2 & C2 & F2 & M2) end.
      * intros g. simpl. apply no_calls_app; [apply C|intros e [<-|[]]; reflexivity].
      * exact Hnd'.
      * intros a' Ha'. simpl. rewrite keys_dict_set.
        assert (a_filepath a' <> a_filepath a) by (intros Heq; apply Ha; rewrite <- Heq; apply in_map; auto).
        destruct (Hfr a' (or_intror Ha')) as [H1 H2]. split; [auto|intros [?|?]; auto].
      * split; [exact O|split; [exact I2|split; [exact C2|split]]].
        -- intros g Hg. destruct (F2 g (fun H => Hg (or_intror H))) as [F3 F4].
           unfold with_trace, with_results, with_pending in *; cbn [results pending trace fs] in *. rewrite F3, F4, lookup_dict_set_neq; [tauto|].
           intros Heq. apply Hg. left. exact Heq.
        -- intros a' [<-|Ha'] Hn; [|apply M2; auto].
           destruct (F2 (a_filepath a) Ha) as [F3 F4]. unfold with_trace, with_results, with_pending in *; cbn [results pending trace fs] in *.
           rewrite F3, F4, lookup_dict_set_eq. split; [reflexivity|exact Hap].
Qed.

Lemma map_filepath_expected E l : map a_filepath (map (expected_analysis E) l) = l.
Proof.
  induction l as [|f l IH]; simpl; [reflexivity|].
  rewrite IH. unfold expected_analysis. destruct (an_gen E f); reflexivity.
Qed.

Lemma finish_out E st :
  fst (finish E st) = Ok (OutComplete (build_summary (results (snd (finish E st))))).
Proof. reflexivity. Qed.

Lemma stamp_finish_out E mk st s :
  fst ((stamp mk ;;; finish E) st) = Ok (OutComplete s) ->
  s = build_summary (results (snd ((stamp mk ;;; finish E) st))).
Proof.
  unfold bind. cbv beta. destruct (stamp mk st) as [[u|e] st1]; cbv beta iota; [|discriminate].
  rewrite finish_out. intros H; inversion H; reflexivity.
Qed.

Lemma phase2_out E st s :
  fst (phase2 E st) = Ok (OutComplete s) -> s = build_summary (results (snd (phase2 E st))).
Proof.
  unfold phase2, try_with. destruct (rounds E (max_iterations E) 1 st) as [[u|[|m]] st1].
  - apply stamp_finish_out.
  - apply stamp_finish_out.
  - discriminate.
Qed.

Lemma phase2_not_nofiles E st : fst (phase2 E st) <> Ok OutNoFiles.
Proof.
  unfold phase2, try_with. destruct (rounds E (max_iterations E) 1 st) as [[u|[|m]] st1];
    try discriminate;
    unfold bind; cbv beta; destruct (stamp _ st1) as [[u'|e] st2]; cbv beta iota;
    try discriminate; rewrite finish_out; discriminate.
Qed.

Lemma tail_spec E st :
  Inv E st ->
  let r := (match pending st with [] => finish E | _ :: _ => phase2 E end) st in
  Inv E (snd r) /\ shrinks st (snd r) /\
  (forall s, fst r = Ok (OutComplete s) -> s = build_summary (results (snd r))) /\
  fst r <> Ok OutNoFiles.
Proof.
  intros I. destruct (pending st).
  - destruct (finish_inv E st I) as [I1 S1]. split; [auto|split; [auto|split]].
    + intros s. rewrite finish_out. intros H; inversion H; reflexivity.
    + rewrite finish_out. discriminate.
  - destruct (phase2_inv E st I) as [I1 S1]. split; [auto|split; [auto|split]].
    + apply phase2_out.
    + apply phase2_not_nofiles.
Qed.

Lemma run_spec E :
  NoDup (files E) ->
  let r := run E init_st in
  Inv E (snd r) /\
  (forall g, ~ In g (filter (kept E) (files E)) ->
     lookup (results (snd r)) g = None /\ no_calls g (trace (snd r))) /\
  (forall f, In f (filter (kept E) (files E)) -> a_needs (expected_analysis E f) = false ->
     no_calls f (trace (snd r)) /\
     (fst r = Ok OutQuota0 \/
      lookup (results (snd r)) f = Some (nofix_record (expected_analysis E f)))) /\
  (forall s, fst r = Ok (OutComplete s) -> s = build_summary (results (snd r))) /\
  (fst r = Ok OutNoFiles -> filter (kept E) (files E) = []).
Proof.
  intros Hnd. pose proof (plan_spec E) as PS. cbv zeta in PS.
  unfold run, try_with.
  destruct (create_refactoring_plan E init_st) as [r0 st0]. simpl in PS.
  destruct PS as (P0 & R0 & T0 & [->| ->]).
  - (* Phase 1 aborted on quota *)
    simpl. assert (I0 := inv_phase1 E st0 P0 R0 T0).
    split; [exact I0|split; [|split; [|split; [discriminate|discriminate]]]].
    + intros g _. rewrite R0. split; [reflexivity|apply phase1_no_calls; exact T0].
    + intros f _ _. split; [apply phase1_no_calls; exact T0|left; reflexivity].
  - assert (I0 := inv_phase1 E st0 P0 R0 T0).
    destruct (map (expected_analysis E) (filter (kept E) (files E))) as [|a0 l0] eqn:Ea.
    + simpl. apply map_eq_nil in Ea.
      split; [exact I0|split; [|split; [|split; [discriminate|intros _; exact Ea]]]].
      * intros g _. rewrite R0. split; [reflexivity|apply phase1_no_calls; exact T0].
      * intros f Hf. rewrite Ea in Hf. contradiction.
    + cbv beta iota. set (an := a0 :: l0) in *.
      destruct (partition_spec E an st0 I0 (phase1_no_calls st0 T0)) as (O2 & I2 & C2 & F2 & M2).
      { rewrite <- Ea, map_filepath_expected. apply NoDup_filter. exact Hnd. }
      { intros a _. rewrite P0, R0. simpl. tauto. }
      unfold bind, get. cbv beta.
      destruct (partition an st0) as [r2 st2]. simpl in O2, I2, C2, F2, M2. subst r2.
      pose proof (tail_spec E st2 I2) as TS. cbv zeta in TS. unfold shrinks in TS.
      destruct TS as (I3 & (S3a & S3b & N & T3 & C3) & Out & NF).
      split; [exact I3|split; [|split; [|split; [exact Out|intros H; contradiction]]]].
      * intros g Hg.
        assert (Hg' : ~ In g (map a_filepath an)) by (rewrite <- Ea, map_filepath_expected; exact Hg).
        destruct (F2 g Hg') as [F3 F4]. rewrite P0 in F4. rewrite R0 in F3. simpl in F4.
        split; [rewrite S3b; [exact F3|tauto]|].
        rewrite T3. apply no_calls_app; [apply C2|apply C3; tauto].
      * intros f Hf Hn.
        assert (Ha : In (expected_analysis E f) an) by (rewrite <- Ea; apply in_map; exact Hf).
        destruct (M2 _ Ha Hn) as [M3 M4].
        assert (Hfp : a_filepath (expected_analysis E f) = f)
          by (unfold expected_analysis; destruct (an_gen E f); reflexivity).
        rewrite Hfp in M3, M4.
        split; [rewrite T3; apply no_calls_app; [apply C2|apply C3; exact M4]|].
        right. rewrite S3b; [exact M3|exact M4].
Qed.

Lemma distinct_NoDup l : distinct l = true -> NoDup l.
Proof.
  induction l as [|x l IH]; simpl; [constructor|].
  intros H. apply andb_true_iff in H as [H1 H2]. constructor; [|auto].
  intros Hin. apply negb_true_iff in H1.
  assert (existsb (path_eqb x) l = true) by (apply existsb_exists; exists x; split; [exact Hin|apply path_eqb_refl]).
  congruence.
Qed.

Lemma lookup_value {V} (d : list (path * V)) k v : lookup d k = Some v -> In v (map snd d).
Proof.
  induction d as [|[k' v'] d IH]; simpl; [discriminate|].
  destruct (path_eqb k k'); [intros H; inversion H; left; reflexivity|intros H; right; auto].
Qed.

(** *** Frames for claim C10 *)

Lemma for_each_rel {A} (Rel : St -> St -> Prop) (body : A -> M unit) :
  (forall st, Rel st st) -> (forall s1 s2 s3, Rel s1 s2 -> Rel s2 s3 -> Rel s1 s3) ->
  (forall x st, Rel st (snd (body x st))) ->
  forall l st, Rel st (snd (for_each l body st)).
Proof.
  intros Hr Ht Hb l. induction l as [|x l IH]; intros st; simpl; [apply Hr|].
  unfold bind. specialize (Hb x st).
  destruct (body x st) as [[u|e] st1]; simpl in *; [eapply Ht; eauto|exact Hb].
Qed.

(** The trace only grows. *)
Definition grows (st st' : St) : Prop := exists N, trace st' = trace st ++ N.

Lemma grows_refl st : grows st st.
Proof. exists []. rewrite app_nil_r. reflexivity. Qed.

Lemma grows_trans s1 s2 s3 : grows s1 s2 -> grows s2 s3 -> grows s1 s3.
Proof. intros [N1 H1] [N2 H2]. exists (N1 ++ N2). rewrite H2, H1, app_assoc. reflexivity. Qed.

Lemma grows_in st st' t1 e t2 :
  grows st st' -> trace st = t1 ++ e :: t2 -> exists t2', trace st' = t1 ++ e :: t2'.
Proof. intros [N H] H0. exists (t2 ++ N). rewrite H, H0, <- app_assoc. reflexivity. Qed.

Ltac grows_tac := eexists; simpl; rewrite <- ?app_assoc; reflexivity.

Lemma fix_loop_grows E it snap st : grows st (snd (fix_loop E it snap st)).
Proof.
  unfold fix_loop. apply for_each_rel; [apply grows_refl|apply grows_trans|].
  intros [f a] st0. unfold bind, fix_file, emit, modify, raise, ret, terminal, set_result, del_pending.
  destruct (fx_read E f it); simpl; [|grows_tac].
  destruct (fx_gen E f it); simpl; [|grows_tac|grows_tac].
  destruct (fx_write E f it); simpl; [|grows_tac].
  destruct (fx_pylint E f it); simpl; grows_tac.
Qed.

Lemma test_loop_grows E it snap : forall failed st, grows st (snd (test_loop E it snap failed st)).
Proof.
  induction snap as [|[f a] snap IH]; intros failed st; simpl; [apply grows_refl|].
  unfold bind, validate_code, generate_tests, fs_add, emit, modify, raise, ret,
    terminal, set_result, del_pending, set_pending.
  destruct (vl_read E f it); simpl; [|grows_tac].
  destruct (vl_gen E f it); simpl; [|eapply grows_trans; [|apply IH]; grows_tac|grows_tac].
  destruct (vl_write E f it); simpl; [|eapply grows_trans; [|apply IH]; grows_tac].
  destruct (passed (vl_pytest E f it)); simpl; eapply grows_trans; [|apply IH| |apply IH]; grows_tac.
Qed.

Lemma rounds_grows E fuel : forall it st, grows st (snd (rounds E fuel it st)).
Proof.
  induction fuel as [|fuel IH]; intros it st; simpl; [apply grows_refl|].
  unfold get, bind. cbv beta. destruct (pending st) as [|p l]; [apply grows_refl|].
  pose proof (fix_loop_grows E it (p :: l) st) as G1.
  destruct (fix_loop E it (p :: l) st) as [[u|e] st1]; simpl in *; [|exact G1].
  pose proof (test_loop_grows E it (pending st1) [] st1) as G2.
  destruct (test_loop E it (pending st1) [] st1) as [[fl|e] st2]; simpl in *;
    [|eapply grows_trans; eauto].
  destruct fl; [eapply grows_trans; eauto|].
  eapply grows_trans; [eapply grows_trans; eauto|apply IH].
Qed.

Lemma fix_loop_cons E it g b snap st :
  fix_loop E it ((g, b) :: snap) st =
  match (fr <- fix_file E g b it ;;
         if fixed fr then ret tt else terminal g (fixfail_record g it) ;;; del_pending g) st with
  | (Ok _, st1) => fix_loop E it snap st1
  | (Raise e, st1) => (Raise e, st1)
  end.
Proof. reflexivity. Qed.

Lemma fix_body_first E it g b st :
  exists X, trace (snd ((fr <- fix_file E g b it ;;
         if fixed fr then ret tt else terminal g (fixfail_record g it) ;;; del_pending g) st)) =
    trace st ++ EvFixCall g it (a_llm b) :: X.
Proof.
  unfold bind, fix_file, emit, modify, raise, ret, terminal, set_result, del_pending.
  destruct (fx_read E g it); simpl; [|grows_tac].
  destruct (fx_gen E g it); simpl; [|grows_tac|grows_tac].
  destruct (fx_write E g it); simpl; [|grows_tac].
  destruct (fx_pylint E g it); simpl; grows_tac.
Qed.

Lemma fix_loop_calls E it f a' snap : forall st,
  lookup snap f = Some a' ->
  (exists e, fst (fix_loop E it snap st) = Raise e) \/
  exists t1 t2, trace (snd (fix_loop E it snap st)) = t1 ++ EvFixCall f it (a_llm a') :: t2.
Proof.
  induction snap as [|[g b] snap IH]; intros st Hl; [discriminate|].
  rewrite fix_loop_cons. simpl in Hl.
  destruct (path_eqb f g) eqn:Efg.
  - apply path_eqb_eq in Efg. inversion Hl; subst. right.
    destruct (fix_body_first E it g a' st) as [X HX].
    match goal with |- context [match ?m with _ => _ end] =>
      destruct m as [[u|e] st1] eqn:Eb end; simpl in HX.
    + destruct (grows_in st1 (snd (fix_loop E it snap st1)) (trace st) _ X
                 (fix_loop_grows E it snap st1) HX) as [t2 H2].
      exists (trace st), t2. exact H2.
    + exists (trace st), X. exact HX.
  - match goal with |- context [match ?m with _ => _ end] =>
      destruct m as [[u|e] st1] eqn:Eb end.
    + apply IH. exact Hl.
    + left. exists e. reflexivity.
Qed.

Ltac env_rewrite_in H :=
  repeat match goal with
  | E : fx_read _ _ _ = _ |- _ => rewrite E in H; clear E
  | E : fx_gen _ _ _ = _ |- _ => rewrite E in H; clear E
  | E : fx_write _ _ _ = _ |- _ => rewrite E in H; clear E
  | E : fx_pylint _ _ _ = _ |- _ => rewrite E in H; clear E
  end.

Lemma fix_loop_keep E it f snap st :
  fix_succeeds E f it = true ->
  lookup (pending (snd (fix_loop E it snap st))) f = lookup (pending st) f /\
  (NoDup (keys (pending st)) -> NoDup (keys (pending (snd (fix_loop E it snap st))))).
Proof.
  intros Hs. unfold fix_loop.
  apply (for_each_rel (fun s s' => lookup (pending s') f = lookup (pending s) f /\
            (NoDup (keys (pending s)) -> NoDup (keys (pending s'))))).
  - intros s. split; auto.
  - intros s1 s2 s3 [H1 H2] [H3 H4]. split; [congruence|auto].
  - intros [g b] st0.
    unfold bind, fix_file, emit, modify, raise, ret, terminal, set_result, del_pending.
    destruct (list_eq_dec String.string_dec g f) as [->|Hne].
    + destruct (fx_read E f it) eqn:Er; simpl; [|split; auto].
      destruct (fx_gen E f it) eqn:Eg; simpl;
        [|exfalso; unfold fix_succeeds in Hs; env_rewrite_in Hs; discriminate|split; auto].
      destruct (fx_write E f it) eqn:Ew; simpl;
        [|exfalso; unfold fix_succeeds in Hs; env_rewrite_in Hs; discriminate].
      destruct (fx_pylint E f it) eqn:Ep; simpl;
        [split; auto|exfalso; unfold fix_succeeds in Hs; env_rewrite_in Hs; discriminate].
    + destruct (fx_read E g it); simpl; [|split; auto].
      destruct (fx_gen E g it); simpl;
        [|split; [apply lookup_dict_del_neq; auto|apply nodup_dict_del]|split; auto].
      destruct (fx_write E g it); simpl;
        [|split; [apply lookup_dict_del_neq; auto|apply nodup_dict_del]].
      destruct (fx_pylint E g it); simpl;
        [split; auto|split; [apply lookup_dict_del_neq; auto|apply nodup_dict_del]].
Qed.

Lemma test_loop_cons_other E it g b snap failed st f :
  g <> f ->
  (exists e st', test_loop E it ((g, b) :: snap) failed st = (Raise e, st')) \/
  exists failed' s1, test_loop E it ((g, b) :: snap) failed st = test_loop E it snap failed' s1 /\
    (forall x, In x failed -> In x failed') /\
    lookup (pending s1) f = lookup (pending st) f /\
    (NoDup (keys (pending st)) -> NoDup (keys (pending s1))).
Proof.
  intros Hne. simpl.
  unfold bind, validate_code, generate_tests, fs_add, emit, modify, raise, ret,
    terminal, set_result, del_pending, set_pending.
  destruct (vl_read E g it); simpl; [|left; eauto].
  destruct (vl_gen E g it); simpl; [| |left; eauto].
  - destruct (vl_write E g it); simpl.
    + destruct (passed (vl_pytest E g it)); simpl; right; eexists _, _; split; try reflexivity;
        (split; [intros x Hx; rewrite ?in_app_iff; auto|]); simpl;
        (split; [first [apply lookup_dict_del_neq|apply lookup_dict_set_neq]; auto
                |first [apply nodup_dict_del|apply nodup_dict_set]]).
    + right; eexists _, _; split; [reflexivity|].
      split; [intros x Hx; rewrite ?in_app_iff; auto|]. simpl.
      split; [apply lookup_dict_set_neq; auto|apply nodup_dict_set].
  - right; eexists _, _; split; [reflexivity|].
    split; [intros x Hx; rewrite ?in_app_iff; auto|]. simpl.
    split; [apply lookup_dict_set_neq; auto|apply nodup_dict_set].
Qed.

Lemma test_loop_frame E it f snap : ~ In f (keys snap) -> forall failed st,
  match test_loop E it snap failed st with
  | (Ok fl, st') => (forall x, In x failed -> In x fl) /\ lookup (pending st') f = lookup (pending st) f
  | _ => True
  end.
Proof.
  induction snap as [|[g b] snap IH]; intros Hf failed st; [simpl; auto|].
  assert (Hne : g <> f) by (intros ->; apply Hf; left; reflexivity).
  assert (Hf' : ~ In f (keys snap)) by (intros H; apply Hf; right; exact H).
  destruct (test_loop_cons_other E it g b snap failed st f Hne)
    as [(e & st' & H)|(failed' & s1 & H & Hs & Hl & _)]; rewrite H; [exact I|].
  specialize (IH Hf' failed' s1).
  destruct (test_loop E it snap failed' s1) as [[fl|e] st']; [|exact I].
  destruct IH as [H1 H2]. split; [auto|congruence].
Qed.

(** The validation record when no test file could be generated. *)
Lemma test_loop_genfail E it f a0 e snap :
  NoDup (keys snap) -> lookup snap f = Some a0 ->
  vl_read E f it = true -> vl_gen E f it = GenLLMError e ->
  forall failed st,
  match test_loop E it snap failed st with
  | (Ok fl, st') =>
      fl <> [] /\
      lookup (pending st') f =
        Some (set_llm a0 (feedback_text (a_llm a0)
                (failure_feedback (mk_validation f false (Some "Could not generate tests") None))))
  | _ => True
  end.
Proof.
  intros Hnd Hl Er Eg. revert Hnd Hl.
  induction snap as [|[g b] snap IH]; intros Hnd Hl failed st; [discriminate|].
  apply keys_cons_nodup in Hnd as [Hg Hnd].
  simpl in Hl. destruct (path_eqb f g) eqn:Efg.
  - apply path_eqb_eq in Efg. inversion Hl; subst g b.
    simpl. unfold bind, validate_code, generate_tests, emit, modify, ret, set_pending.
    rewrite Er, Eg. simpl.
    match goal with |- match test_loop E it snap ?fl ?s with _ => _ end =>
      pose proof (test_loop_frame E it f snap Hg fl s) as HF;
      destruct (test_loop E it snap fl s) as [[fl'|e'] st']; [|exact I] end.
    destruct HF as [H1 H2]. split.
    + intros Hnil. assert (Hin : In f fl') by (apply H1; apply in_app_iff; right; left; reflexivity).
      rewrite Hnil in Hin. exact Hin.
    + rewrite H2. simpl. apply lookup_dict_set_eq.
  - assert (Hne : g <> f) by (intros ->; rewrite path_eqb_refl in Efg; discriminate).
    destruct (test_loop_cons_other E it g b snap failed st f Hne)
      as [(e' & st' & H)|(failed' & s1 & H & Hs & _ & _)]; rewrite H; [exact I|].
    apply IH; auto.
Qed.

(** *** Records are stored under their own path *)

Lemma wf_dict_set d k v : wf_dict d -> r_filepath v = k -> wf_dict (dict_set d k v).
Proof.
  intros H Hv. unfold dict_set. destruct (lookup d k) eqn:El.
  - clear El. induction d as [|[k' v'] d IH]; simpl; [intros ? ? []|].
    destruct (path_eqb k k') eqn:Ek.
    + apply path_eqb_eq in Ek. subst k'. intros k2 v2 [Heq|Hin].
      * injection Heq as <- <-. exact Hv.
      * apply (H k2 v2). right. exact Hin.
    + intros k2 v2 [Heq|Hin].
      * injection Heq as <- <-. apply (H k' v'). left. reflexivity.
      * apply IH; [intros k3 v3 H3; apply (H k3 v3); right; exact H3|exact Hin].
  - intros k2 v2 Hin. apply in_app_iff in Hin as [Hin|[Heq|[]]].
    + exact (H k2 v2 Hin).
    + injection Heq as <- <-. exact Hv.
Qed.

Lemma wf_dict_lookup d k v : wf_dict d -> lookup d k = Some v -> r_filepath v = k.
Proof.
  intros H. induction d as [|[k' v'] d IH]; simpl; [discriminate|].
  destruct (path_eqb k k') eqn:Ek.
  - apply path_eqb_eq in Ek. subst k'. intros Hv. inversion Hv; subst. apply (H k v). left. reflexivity.
  - intros Hl. apply IH; [intros k2 v2 H2; apply (H k2 v2); right; exact H2|exact Hl].
Qed.

Lemma wf_dict_in d f : wf_dict d -> In f (map r_filepath (map snd d)) -> In f (keys d).
Proof.
  intros H Hin. apply in_map_iff in Hin as (v & Hv & Hin). apply in_map_iff in Hin as ([k v'] & Hk & Hin).
  simpl in Hk. subst v'. rewrite <- Hv, (H k v Hin). apply (in_map fst _ _ Hin).
Qed.

Ltac wf_step :=
  unfold results_wf in *; cbn [results] in *;
  first [assumption | apply wf_dict_set; [assumption|reflexivity]].

Ltac wf_tac := intros ?; wf_step.

Lemma fix_loop_wf E it snap st : results_wf st -> results_wf (snd (fix_loop E it snap st)).
Proof.
  unfold fix_loop. revert st.
  apply (for_each_rel (fun s s' => results_wf s -> results_wf s')); [auto|auto|].
  intros [f a] st0. unfold bind, fix_file, emit, modify, raise, ret, terminal, set_result,
    del_pending, with_trace, with_results, with_pending.
  destruct (fx_read E f it); simpl; [|wf_tac].
  destruct (fx_gen E f it); simpl; [|wf_tac|wf_tac].
  destruct (fx_write E f it); simpl; [|wf_tac].
  destruct (fx_pylint E f it); simpl; wf_tac.
Qed.

Lemma test_loop_wf E it snap : forall failed st,
  results_wf st -> results_wf (snd (test_loop E it snap failed st)).
Proof.
  induction snap as [|[f a] snap IH]; intros failed st; simpl; [auto|].
  unfold bind, validate_code, generate_tests, fs_add, emit, modify, raise, ret,
    terminal, set_result, del_pending, set_pending, with_trace, with_results, with_pending, with_fs.
  destruct (vl_read E f it); simpl; [|wf_tac].
  destruct (vl_gen E f it); simpl; [|intros H; apply IH; wf_step|wf_tac].
  destruct (vl_write E f it); simpl; [|intros H; apply IH; wf_step].
  destruct (passed (vl_pytest E f it)); simpl; intros H; apply IH; wf_step.
Qed.

Lemma rounds_wf E fuel : forall it st, results_wf st -> results_wf (snd (rounds E fuel it st)).
Proof.
  induction fuel as [|fuel IH]; intros it st H; simpl; [exact H|].
  unfold get, bind. cbv beta. destruct (pending st) as [|p l]; [exact H|].
  pose proof (fix_loop_wf E it (p :: l) st H) as H1.
  destruct (fix_loop E it (p :: l) st) as [[u|e] st1]; simpl in *; [|exact H1].
  pose proof (test_loop_wf E it (pending st1) [] st1 H1) as H2.
  destruct (test_loop E it (pending st1) [] st1) as [[fl|e] st2]; simpl in *; [|exact H2].
  destruct fl; [exact H2|apply IH; exact H2].
Qed.

Lemma stamp_wf mk st : (forall f, r_filepath (mk f) = f) -> results_wf st -> results_wf (snd (stamp mk st)).
Proof.
  intros Hmk. unfold stamp, get, bind. cbv beta. generalize (keys (pending st)). intros l. revert st.
  apply (for_each_rel (fun s s' => results_wf s -> results_wf s')); [auto|auto|].
  intros f st0. unfold set_result, modify, with_results. simpl. intros H.
  unfold results_wf in *. simpl. apply wf_dict_set; [exact H|apply Hmk].
Qed.

Lemma finish_wf E st : results_wf st -> results_wf (snd (finish E st)).
Proof. intros H. exact H. Qed.

Lemma phase2_wf E st : results_wf st -> results_wf (snd (phase2 E st)).
Proof.
  intros H. unfold phase2, try_with.
  pose proof (rounds_wf E (max_iterations E) 1 st H) as H1.
  destruct (rounds E (max_iterations E) 1 st) as [[u|[|m]] st1]; simpl in *; [| |exact H1];
    unfold bind; cbv beta;
    match goal with |- context [stamp ?mk st1] =>
      pose proof (stamp_wf mk st1 ltac:(reflexivity) H1) as H2;
      destruct (stamp mk st1) as [[u'|e] st2]; cbv beta iota; [|exact H2] end;
    apply finish_wf; exact H2.
Qed.

Lemma partition_ok l : forall st, fst (partition l st) = Ok tt.
Proof.
  induction l as [|a l IH]; intros st; [reflexivity|].
  unfold partition. simpl. unfold bind, terminal, set_result, set_pending, emit, modify.
  destruct (negb (a_needs a)); simpl; apply IH.
Qed.

Lemma partition_wf l st : results_wf st -> results_wf (snd (partition l st)).
Proof.
  unfold partition. revert st.
  apply (for_each_rel (fun s s' => results_wf s -> results_wf s')); [auto|auto|].
  intros a st0. unfold bind, terminal, set_result, set_pending, emit, modify,
    with_trace, with_results, with_pending.
  destruct (negb (a_needs a)); simpl; wf_tac.
Qed.

Lemma run_wf E : results_wf (snd (run E init_st)).
Proof.
  pose proof (plan_spec E) as PS. cbv zeta in PS.
  unfold run, try_with.
  destruct (create_refactoring_plan E init_st) as [r0 st0]. simpl in PS.
  destruct PS as (P0 & R0 & _ & _).
  assert (W0 : results_wf st0) by (unfold results_wf; rewrite R0; intros ? ? []).
  destruct r0 as [an|[|m]]; simpl; [|exact W0|exact W0].
  destruct an as [|a0 l0]; [exact W0|].
  unfold bind, get. cbv beta.
  pose proof (partition_wf (a0 :: l0) st0 W0) as W1.
  destruct (partition (a0 :: l0) st0) as [[u|e] st1]; simpl in *; [|exact W1].
  destruct (pending st1); [apply finish_wf; exact W1|].
  apply phase2_wf. exact W1.
Qed.

(** *** [stamp], [finish] and the Phase 2 quota handler *)

Lemma with_results_twice st d1 d2 : with_results (with_results st d1) d2 = with_results st d2.
Proof. destruct st; reflexivity. Qed.

Lemma set_all_spec mk l : forall st,
  for_each l (fun f => set_result f (mk f)) st =
  (Ok tt, with_results st (fold_left (fun d f => dict_set d f (mk f)) l (results st))).
Proof.
  induction l as [|x l IH]; intros st; simpl.
  - destruct st; reflexivity.
  - unfold bind, set_result, modify. cbv beta iota. rewrite IH. simpl.
    rewrite with_results_twice. reflexivity.
Qed.

Lemma fold_set_out (mk : path -> file_result) l : forall (d : list (path * file_result)) k, ~ In k l ->
  lookup (fold_left (fun d f => dict_set d f (mk f)) l d) k = lookup d k.
Proof.
  induction l as [|x l IH]; intros d k Hk; simpl; [reflexivity|].
  rewrite IH by (intros H; apply Hk; right; exact H).
  apply lookup_dict_set_neq. intros ->. apply Hk. left. reflexivity.
Qed.

Lemma fold_set_in (mk : path -> file_result) l : forall (d : list (path * file_result)) k, In k l ->
  lookup (fold_left (fun d f => dict_set d f (mk f)) l d) k = Some (mk k).
Proof.
  induction l as [|x l IH]; intros d k Hk; simpl; [contradiction|].
  destruct (in_dec (list_eq_dec String.string_dec) k l) as [Hl|Hl]; [apply IH; exact Hl|].
  destruct Hk as [->|Hk]; [|contradiction].
  rewrite fold_set_out by exact Hl. apply lookup_dict_set_eq.
Qed.

Lemma stamp_finish_spec E mk st :
  let R := fold_left (fun d f => dict_set d f (mk f)) (keys (pending st)) (results st) in
  (stamp mk ;;; finish E) st =
  (Ok (OutComplete (build_summary R)),
   mk_st (filter (fun p => negb (is_under (target_dir E ++ ["tests"]) p)) (fs st))
         (trace st ++ [EvCleanup (target_dir E ++ ["tests"])]) (pending st) R).
Proof.
  cbv zeta. unfold stamp, get. unfold bind at 1. cbv beta.
  unfold bind at 1. cbv beta. rewrite set_all_spec. reflexivity.
Qed.

End EngineFacts.

(* ------------------------------------------------------------------ *)
(** ** Phase 1: what [create_refactoring_plan] returns and logs *)

Module PlanFacts.
Import Llm Engine EngineSpec EngineFacts ExtraSpec.

Lemma plan_loop_result E fs : forall acc st,
  fst (plan_loop E fs acc st) =
  if existsb (quota_hit E) fs then Raise Quota
  else Ok (acc ++ map (expected_analysis E) (filter (kept E) fs)).
Proof.
  induction fs as [|f fs IH]; intros acc st; [simpl; rewrite app_nil_r; reflexivity|].
  cbn [plan_loop existsb filter].
  unfold try_with, analyze_file, bind, emit, modify, raise, ret.
  destruct (an_read E f) eqn:Er.
  - destruct (an_pylint E f) as [p|] eqn:Ep.
    + assert (Hk : kept E f = true) by (unfold kept; rewrite Er, Ep; reflexivity).
      destruct (an_gen E f) eqn:Eg;
        assert (Hq : quota_hit E f = match an_gen E f with GenQuota => true | _ => false end)
          by (unfold quota_hit; rewrite Hk; reflexivity);
        rewrite Eg in Hq; rewrite Hq, Hk; simpl; [| |reflexivity];
        rewrite IH; clear IH; destruct (existsb (quota_hit E) fs); try reflexivity;
        rewrite <- app_assoc; unfold expected_analysis; rewrite Ep, Eg; reflexivity.
    + assert (Hk : kept E f = false) by (unfold kept; rewrite Er, Ep; reflexivity).
      assert (Hq : quota_hit E f = false) by (unfold quota_hit; rewrite Hk; reflexivity).
      rewrite Hq, Hk. simpl. apply IH.
  - assert (Hk : kept E f = false) by (unfold kept; rewrite Er; reflexivity).
    assert (Hq : quota_hit E f = false) by (unfold quota_hit; rewrite Hk; reflexivity).
    rewrite Hq, Hk. simpl. apply IH.
Qed.

Lemma plan_result E st :
  fst (create_refactoring_plan E st) =
  if existsb (quota_hit E) (files E) then Raise Quota
  else Ok (map (expected_analysis E) (filter (kept E) (files E))).
Proof.
  unfold create_refactoring_plan. destruct (files E) as [|f fs] eqn:Ef; [reflexivity|].
  rewrite <- Ef, plan_loop_result. reflexivity.
Qed.

Lemma plan_loop_trace E l acc st e :
  In e (trace st) -> In e (trace (snd (plan_loop E l acc st))).
Proof.
  intros H. pose proof (plan_loop_spec E l acc st) as PS. cbv zeta in PS.
  destruct PS as (_ & _ & (N & T & _) & _). rewrite T. apply in_or_app. left. exact H.
Qed.

Lemma plan_loop_logs E f l : forall acc st,
  existsb (quota_hit E) l = false -> In f l -> kept E f = false ->
  In (EvLog auditor f false) (trace (snd (plan_loop E l acc st))).
Proof.
  induction l as [|g l IH]; intros acc st Hq Hin Hk; [destruct Hin|].
  cbn [existsb] in Hq. apply orb_false_iff in Hq as [Hqg Hq].
  cbn [plan_loop]. unfold try_with, analyze_file, bind, emit, modify, raise, ret.
  assert (Hlog : forall st', In (EvLog auditor g false) (trace st') ->
            In f (g :: l) -> kept E g = false ->
            In (EvLog auditor f false) (trace (snd (plan_loop E l acc st')))).
  { intros st' H' Hin' Hkg. destruct Hin' as [<-|Hin']; [apply plan_loop_trace, H'|].
    apply IH; assumption. }
  destruct (an_read E g) eqn:Er; simpl.
  - destruct (an_pylint E g) as [p|] eqn:Ep; simpl.
    + assert (Hkg : kept E g = true) by (unfold kept; rewrite Er, Ep; reflexivity).
      destruct Hin as [->|Hin]; [congruence|].
      unfold quota_hit in Hqg. rewrite Hkg in Hqg.
      destruct (an_gen E g); simpl; [apply IH; assumption|apply IH; assumption|discriminate].
    + apply Hlog; [cbn [trace with_trace]; rewrite !in_app_iff; simpl; tauto|exact Hin|].
      unfold kept. rewrite Er, Ep. reflexivity.
  - apply Hlog; [cbn [trace with_trace]; rewrite !in_app_iff; simpl; tauto|exact Hin|].
    unfold kept. rewrite Er. reflexivity.
Qed.

Lemma plan_logs E f :
  existsb (quota_hit E) (files E) = false -> In f (files E) -> kept E f = false ->
  In (EvLog auditor f false) (trace (snd (create_refactoring_plan E init_st))).
Proof.
  intros Hq Hin Hk. unfold create_refactoring_plan.
  destruct (files E) as [|g l] eqn:Ef; [destruct Hin|].
  rewrite <- Ef. apply plan_loop_logs; rewrite ?Ef; assumption.
Qed.

End PlanFacts.

(* ------------------------------------------------------------------ *)
(** ** Claims on the workflow engine *)

Module EngineClaims.
Import Llm Engine EngineSpec DictFacts EngineFacts PlanFacts ExtraSpec Scenarios.

Lemma rounds_step E fuel it st :
  rounds E (S fuel) it st =
  match pending st with
  | [] => (Ok tt, st)
  | _ :: _ =>
      match fix_loop E it (pending st) st with
      | (Ok _, st1) =>
          match test_loop E it (pending st1) [] st1 with
          | (Ok fl, st2) => match fl with [] => (Ok tt, st2) | _ :: _ => rounds E fuel (S it) st2 end
          | (Raise x, st2) => (Raise x, st2)
          end
      | (Raise x, st1) => (Raise x, st1)
      end
  end.
Proof.
  destruct st as [fs0 tr p rs]. destruct p as [|q p]; [reflexivity|].
  simpl. cbv beta iota delta [bind get]. cbn [pending].
  destruct (fix_loop E it (q :: p) _) as [[u|x] st1]; [|reflexivity].
  destruct (test_loop E it (pending st1) [] st1) as [[fl|x] st2]; [|reflexivity].
  destruct fl; reflexivity.
Qed.

Ltac in_tac := vm_compute; repeat (first [left; reflexivity | right]).

(** C1 (counterexample): [a.py] cannot be read, so its analysis raises a
    non-quota error. The failure is logged, but the file is dropped from the
    plan: the run completes with a summary of one record, none of which is
    about [a.py]. *)
Lemma C1_unreadable_file_unaccounted :
  let r := run c1_env init_st in
  In ["a.py"] (files c1_env) /\ an_read c1_env ["a.py"] = false /\
  In (EvLog auditor ["a.py"] false) (trace (snd r)) /\
  fst r = Ok (OutComplete (build_summary (results (snd r)))) /\
  s_total (build_summary (results (snd r))) = 1 /\
  ~ In ["a.py"] (map r_filepath (s_results (build_summary (results (snd r))))).
Proof.
  cbv zeta. split; [in_tac|]. split; [reflexivity|]. split; [in_tac|].
  split; [vm_compute; reflexivity|]. split; [vm_compute; reflexivity|].
  vm_compute. intros [H|[]]. discriminate H.
Qed.

(** C1 (amended): a discovered file whose analysis raises a non-quota
    error (its [read_file] or [run_pylint] call fails) is caught by
    [create_refactoring_plan]: when no analysis hits the quota, the plan
    returns normally, the failure is logged (a failed [Auditor_Agent] log
    entry for the file) and the plan has no analysis for the file. In every
    case the file never gets a record, no repair or validation call is
    issued for it, and a summary returned by [run] is built from the
    records alone, so it has no record for that file. *)
Theorem C1_failed_analysis_dropped (E : env) (f : path) :
  distinct (files E) = true -> In f (files E) -> kept E f = false ->
  let p := create_refactoring_plan E init_st in
  let r := run E init_st in
  (existsb (quota_hit E) (files E) = false ->
     exists plan, fst p = Ok plan /\ ~ In f (map a_filepath plan) /\
                  In (EvLog auditor f false) (trace (snd p))) /\
  lookup (results (snd r)) f = None /\ no_calls f (trace (snd r)) /\
  (forall s, fst r = Ok (OutComplete s) ->
     s = build_summary (results (snd r)) /\ ~ In f (map r_filepath (s_results s))).
Proof.
  intros Hd Hf Hk. pose proof (run_spec E (distinct_NoDup _ Hd)) as RS. cbv zeta in *.
  destruct RS as (_ & R2 & _ & R4 & _).
  assert (Hg : ~ In f (filter (kept E) (files E))) by (rewrite filter_In; intros [_ H]; congruence).
  split.
  { intros Hq. exists (map (expected_analysis E) (filter (kept E) (files E))).
    rewrite plan_result, Hq. split; [reflexivity|].
    rewrite map_filepath_expected. split; [exact Hg|].
    apply plan_logs; assumption. }
  destruct (R2 f Hg) as [L N]. split; [exact L|split; [exact N|]].
  intros s Hs. specialize (R4 s Hs). subst s. split; [reflexivity|].
  intros Hin. pose proof (run_wf E) as W.
  apply (wf_dict_in _ _ W) in Hin. apply in_keys_lookup in Hin as [v Hv]. congruence.
Qed.

Lemma C1_failed_analysis_dropped_witness :
  existsb (quota_hit c1_env) (files c1_env) = false /\
  let p := create_refactoring_plan c1_env init_st in
  let r := run c1_env init_st in
  (existsb (quota_hit c1_env) (files c1_env) = false ->
     exists plan, fst p = Ok plan /\ ~ In ["a.py"] (map a_filepath plan) /\
                  In (EvLog auditor ["a.py"] false) (trace (snd p))) /\
  lookup (results (snd r)) ["a.py"] = None /\ no_calls ["a.py"] (trace (snd r)) /\
  (forall s, fst r = Ok (OutComplete s) ->
     s = build_summary (results (snd r)) /\ ~ In ["a.py"] (map r_filepath (s_results s))).
Proof.
  split; [vm_compute; reflexivity|].
  apply (C1_failed_analysis_dropped c1_env ["a.py"]); [vm_compute; reflexivity|in_tac|vm_compute; reflexivity].
Defined.

(** C2: if the repair loop of Phase 2 raises the quota error, leaving the
    state [st_q], then [run] returns the summary built by [_build_summary]
    from the final records (the same construction as a normal end); every
    file still pending in [st_q] has the [quota_exhausted] record; every
    other file keeps the record it had in [st_q]; in particular a file that
    reached a terminal record while [pending] was live keeps that record. *)
Theorem C2_quota_in_phase2 (E : env) (analyses : list analysis) (st0 st_q : St) :
  distinct (files E) = true ->
  create_refactoring_plan E init_st = (Ok analyses, st0) ->
  pending (snd (partition analyses st0)) <> [] ->
  rounds E (max_iterations E) 1 (snd (partition analyses st0)) = (Raise Quota, st_q) ->
  let r := run E init_st in
  fst r = Ok (OutComplete (build_summary (results (snd r)))) /\
  (forall f, In f (keys (pending st_q)) -> lookup (results (snd r)) f = Some (quota_record f)) /\
  (forall f, ~ In f (keys (pending st_q)) -> lookup (results (snd r)) f = lookup (results st_q) f) /\
  (forall f rec t1 t2, trace st_q = t1 ++ EvTerminal f rec :: t2 ->
     lookup (results (snd r)) f = Some rec).
Proof.
  intros Hd Hplan Hpend Hq. cbv zeta.
  pose proof (plan_spec E) as PS. cbv zeta in PS. rewrite Hplan in PS. cbn [fst snd] in PS.
  destruct PS as (P0 & _ & _ & _).
  assert (Hrun : run E init_st = (stamp quota_record ;;; finish E) st_q).
  { unfold run, try_with. rewrite Hplan. cbv beta iota.
    destruct analyses as [|a0 l0]; [exfalso; apply Hpend; exact P0|].
    unfold bind at 1. cbv beta.
    pose proof (partition_ok (a0 :: l0) st0) as Ok2.
    destruct (partition (a0 :: l0) st0) as [r2 st2] eqn:Ep.
    cbn [fst snd] in Ok2, Hpend, Hq. subst r2. cbv beta iota.
    unfold bind at 1, get. cbv beta.
    destruct (pending st2) eqn:Ep2; [contradiction|].
    unfold phase2, try_with. rewrite Hq. reflexivity. }
  pose proof (stamp_finish_spec E quota_record st_q) as SF. cbv zeta in SF.
  pose proof (run_spec E (distinct_NoDup _ Hd)) as RS. cbv zeta in RS. destruct RS as (I & _).
  rewrite Hrun, SF in *. cbn [fst snd results trace] in *.
  split; [reflexivity|]. split; [|split].
  - intros f Hf. apply fold_set_in. exact Hf.
  - intros f Hf. apply fold_set_out. exact Hf.
  - intros f rec t1 t2 Ht.
    assert (Ht' : trace st_q ++ [EvCleanup (target_dir E ++ ["tests"])] =
                  t1 ++ EvTerminal f rec :: (t2 ++ [EvCleanup (target_dir E ++ ["tests"])]))
      by (rewrite Ht, <- app_assoc; reflexivity).
    exact (proj1 (inv_term _ _ I _ _ _ _ Ht')).
Qed.

Lemma C2_quota_in_phase2_witness :
  let an := match fst (create_refactoring_plan c2_env init_st) with Ok a => a | Raise _ => [] end in
  let st0 := snd (create_refactoring_plan c2_env init_st) in
  let st_q := snd (rounds c2_env (max_iterations c2_env) 1 (snd (partition an st0))) in
  let r := run c2_env init_st in
  fst r = Ok (OutComplete (build_summary (results (snd r)))) /\
  (forall f, In f (keys (pending st_q)) -> lookup (results (snd r)) f = Some (quota_record f)) /\
  (forall f, ~ In f (keys (pending st_q)) -> lookup (results (snd r)) f = lookup (results st_q) f) /\
  (forall f rec t1 t2, trace st_q = t1 ++ EvTerminal f rec :: t2 ->
     lookup (results (snd r)) f = Some rec).
Proof.
  intros an st0 st_q. apply (C2_quota_in_phase2 c2_env an st0 st_q); subst an st0 st_q;
    vm_compute; first [reflexivity | discriminate].
Defined.

(** C3 (code bug): the repair of [b.py] leaves its score at 5.0, so
    [fix_file] reports [improved = False]; the file then passes its tests
    and its record carries the constant [improved = True], so the summary
    counts it as improved. *)
Theorem C3_unimproved_repair_counted :
  an_pylint c3_env ["b.py"] = Some bad_pylint /\
  fx_pylint c3_env ["b.py"] 1 = Some bad_pylint /\
  fst (fix_file c3_env ["b.py"] (expected_analysis c3_env ["b.py"]) 1 init_st) =
    Ok (mk_fix true (Some false) None) /\
  fst (run c3_env init_st) = Ok (OutComplete (mk_summary 1 1 1 [success_record ["b.py"] 1])).
Proof. repeat split; vm_compute; reflexivity. Qed.

(** C4 (code bug): for a file [sub/b.py] below the target directory ["."],
    [generate_tests] writes [sub/tests/test_b.py] and [sub/tests/__init__.py],
    while [_cleanup_tests] removes only [./tests]: the run returns its
    summary with both files still on disk. *)
Theorem C4_nested_tests_left :
  let r := run c4_env init_st in
  fst r = Ok (OutComplete (build_summary (results (snd r)))) /\
  In ["sub"; "tests"; "test_b.py"] (fs (snd r)) /\
  In ["sub"; "tests"; "__init__.py"] (fs (snd r)).
Proof. cbv zeta. split; [vm_compute; reflexivity|split; in_tac]. Qed.

(** C7 (counterexample): [a.py] is clean (score 8.0, no issue, no tool
    error), but the analysis of [b.py] hits the quota: [run] returns the
    Phase 1 [quota_exhausted] result with no summary and no record at all. *)
Lemma C7_phase1_quota_no_verdict :
  an_read c7_env ["a.py"] = true /\ an_pylint c7_env ["a.py"] = Some clean_pylint /\
  needs_refactoring clean_pylint = false /\
  fst (run c7_env init_st) = Ok OutQuota0 /\ results (snd (run c7_env init_st)) = [].
Proof. repeat split; vm_compute; reflexivity. Qed.

(** C7 (amended): for a discovered file whose quality signal has score at
    least 7.0, no issue and no tool error, no repair or validation call is
    ever issued, [run] does not report [no_files], and whenever [run]
    returns a summary, that summary holds the file's [no_fix_needed]
    record, counted as validated. (The run may instead end with the
    Phase 1 [quota_exhausted] result, which has no summary.) *)
Theorem C7_clean_file_no_fix (E : env) (f : path) (p : pylint_result) :
  distinct (files E) = true -> In f (files E) ->
  an_read E f = true -> an_pylint E f = Some p ->
  Qle_bool 7 (score p) = true -> issues p = [] -> perror p = None ->
  let r := run E init_st in
  no_calls f (trace (snd r)) /\ fst r <> Ok OutNoFiles /\
  (forall s, fst r = Ok (OutComplete s) ->
     exists rec, In rec (s_results s) /\ r_filepath rec = f /\
       r_status rec = NoFixNeeded /\ r_validated rec = true /\
       lookup (results (snd r)) f = Some rec).
Proof.
  intros Hd Hin Hr Hp Hs Hi He. pose proof (run_spec E (distinct_NoDup _ Hd)) as RS. cbv zeta in *.
  destruct RS as (_ & _ & R3 & R4 & R5).
  assert (Hf : In f (filter (kept E) (files E)))
    by (apply filter_In; split; [exact Hin|unfold kept; rewrite Hr, Hp; reflexivity]).
  assert (Hfp : a_filepath (expected_analysis E f) = f)
    by (unfold expected_analysis; destruct (an_gen E f); reflexivity).
  assert (Hn : a_needs (expected_analysis E f) = false).
  { unfold expected_analysis. rewrite Hp.
    destruct (an_gen E f); simpl; unfold needs_refactoring; rewrite Hs, Hi, He; reflexivity. }
  destruct (R3 f Hf Hn) as [M1 M2].
  split; [exact M1|split].
  - intros H. rewrite (R5 H) in Hf. exact Hf.
  - intros s Hs'. destruct M2 as [M2|M2]; [congruence|].
    exists (nofix_record (expected_analysis E f)).
    rewrite (R4 s Hs'). split; [apply (lookup_value _ _ _ M2)|].
    split; [exact Hfp|split; [reflexivity|split; [reflexivity|exact M2]]].
Qed.

Lemma C7_clean_file_no_fix_witness :
  let r := run c1_env init_st in
  no_calls ["b.py"] (trace (snd r)) /\ fst r <> Ok OutNoFiles /\
  (forall s, fst r = Ok (OutComplete s) ->
     exists rec, In rec (s_results s) /\ r_filepath rec = ["b.py"] /\
       r_status rec = NoFixNeeded /\ r_validated rec = true /\
       lookup (results (snd r)) ["b.py"] = Some rec).
Proof.
  apply (C7_clean_file_no_fix c1_env ["b.py"] clean_pylint); vm_compute; first [reflexivity | in_tac].
Defined.

(** C8: on the final state of [run], a repair call on [f] in round [it]
    that returns [fixed = False] is followed by the [fix_failed] record of
    round [it] with no repair or validation call on [f] in between, and no
    such call on [f] ever after; that record is [f]'s final record and [f]
    is not pending. More generally every record written while [pending] is
    live is the file's final record, the file is out of [pending] at the
    end, and no call on it follows the write. *)
Theorem C8_fix_failed_final (E : env) :
  distinct (files E) = true ->
  let st := snd (run E init_st) in
  (forall f it txt t1 t2, trace st = t1 ++ EvFixCall f it txt :: t2 -> fix_fails E f it = true ->
     exists t2a t2b, t2 = t2a ++ EvTerminal f (fixfail_record f it) :: t2b /\
       no_calls f t2a /\ no_calls f t2b /\
       lookup (results st) f = Some (fixfail_record f it) /\ ~ In f (keys (pending st))) /\
  (forall f r t1 t2, trace st = t1 ++ EvTerminal f r :: t2 ->
     lookup (results st) f = Some r /\ ~ In f (keys (pending st)) /\ no_calls f t2).
Proof.
  intros Hd. pose proof (run_spec E (distinct_NoDup _ Hd)) as RS. cbv zeta in *.
  destruct RS as (I & _). split.
  - intros f it txt t1 t2 Ht Hff.
    destruct (inv_fix _ _ I _ _ _ _ _ Ht Hff) as (t2a & t2b & Ht2 & Hna).
    assert (Ht' : trace (snd (run E init_st)) =
                  (t1 ++ EvFixCall f it txt :: t2a) ++ EvTerminal f (fixfail_record f it) :: t2b)
      by (rewrite Ht, Ht2, <- app_assoc; reflexivity).
    destruct (inv_term _ _ I _ _ _ _ Ht') as (H1 & H2 & H3).
    exists t2a, t2b. auto.
  - intros f r t1 t2 Ht. exact (inv_term _ _ I _ _ _ _ Ht).
Qed.

Lemma C8_fix_failed_final_witness :
  let st := snd (run c8_env init_st) in
  existsb (fun e => match e with EvFixCall g it _ => fix_fails c8_env g it | _ => false end)
          (trace st) = true /\
  lookup (results st) ["a.py"] = Some (fixfail_record ["a.py"] 2) /\
  (forall f it txt t1 t2, trace st = t1 ++ EvFixCall f it txt :: t2 -> fix_fails c8_env f it = true ->
     exists t2a t2b, t2 = t2a ++ EvTerminal f (fixfail_record f it) :: t2b /\
       no_calls f t2a /\ no_calls f t2b /\
       lookup (results st) f = Some (fixfail_record f it) /\ ~ In f (keys (pending st))) /\
  (forall f r t1 t2, trace st = t1 ++ EvTerminal f r :: t2 ->
     lookup (results st) f = Some r /\ ~ In f (keys (pending st)) /\ no_calls f t2).
Proof.
  cbv zeta. split; [vm_compute; reflexivity|split; [vm_compute; reflexivity|]].
  apply (C8_fix_failed_final c8_env). vm_compute. reflexivity.
Defined.

(** C10: when the repair of a pending file [f] in round [r] succeeds but
    test generation fails with a non-quota model error, [validate_code]
    returns the non-validated result ["Could not generate tests"] without
    raising; and when at least one more round remains, the next round
    issues a repair call on [f] whose analysis text has the failure report
    of that result appended, unless some call raises first. *)
Theorem C10_genfail_retried (E : env) (f : path) (a : analysis) (e : string) (n r : nat) (st : St) :
  distinct (keys (pending st)) = true ->
  lookup (pending st) f = Some a ->
  fix_succeeds E f r = true ->
  vl_read E f r = true -> vl_gen E f r = GenLLMError e ->
  let v := mk_validation f false (Some "Could not generate tests") None in
  fst (validate_code E f r st) = Ok v /\
  ((exists x, fst (rounds E (S (S n)) r st) = Raise x) \/
   exists t1 t2, trace (snd (rounds E (S (S n)) r st)) =
     t1 ++ EvFixCall f (S r) (feedback_text (a_llm a) (failure_feedback v)) :: t2).
Proof.
  intros Hd Hl Hs Hr Hg v. split.
  { unfold validate_code, generate_tests, bind, emit, modify, ret. rewrite Hr, Hg. reflexivity. }
  rewrite rounds_step.
  destruct (pending st) as [|p0 l0] eqn:Ep; [discriminate|]. rewrite <- Ep.
  destruct (fix_loop_keep E r f (pending st) st Hs) as [K1 K2].
  destruct (fix_loop E r (pending st) st) as [[u|x] st1] eqn:Ef; [|left; exists x; reflexivity].
  cbn [snd] in K1, K2.
  assert (Hl1 : lookup (pending st1) f = Some a) by (rewrite K1, Ep; exact Hl).
  assert (Hnd1 : NoDup (keys (pending st1))) by (apply K2; rewrite Ep; apply distinct_NoDup, Hd).
  pose proof (test_loop_genfail E r f a e (pending st1) Hnd1 Hl1 Hr Hg [] st1) as TG.
  destruct (test_loop E r (pending st1) [] st1) as [[fl|x] st2] eqn:Et; [|left; exists x; reflexivity].
  destruct TG as [Hfl Hl2].
  destruct fl as [|g fl]; [contradiction|].
  rewrite rounds_step.
  destruct (pending st2) as [|q l] eqn:Ep2; [discriminate|]. rewrite <- Ep2.
  rewrite <- Ep2 in Hl2.
  pose proof (fix_loop_calls E (S r) f _ (pending st2) st2 Hl2) as FC.
  destruct (fix_loop E (S r) (pending st2) st2) as [[u2|x'] st3] eqn:Ef2;
    [|left; exists x'; reflexivity].
  destruct FC as [[x Hx]|(t1 & t2 & Ht)]; cbn [fst snd] in *; [discriminate|].
  right.
  pose proof (test_loop_grows E (S r) (pending st3) [] st3) as G.
  destruct (test_loop E (S r) (pending st3) [] st3) as [[fl3|y] st4]; cbn [snd] in G.
  - destruct fl3 as [|h fl3].
    + exists t1. exact (grows_in _ _ _ _ _ G Ht).
    + exists t1. apply (grows_in st3 _ t1 _ t2); [|exact Ht].
      eapply grows_trans; [exact G|apply rounds_grows].
  - exists t1. exact (grows_in _ _ _ _ _ G Ht).
Qed.

Lemma C10_genfail_retried_witness :
  let st := mk_st [] [] [(["b.py"], expected_analysis c10_env ["b.py"])] [] in
  let v := mk_validation ["b.py"] false (Some "Could not generate tests") None in
  fst (validate_code c10_env ["b.py"] 1 st) = Ok v /\
  ((exists x, fst (rounds c10_env 2 1 st) = Raise x) \/
   exists t1 t2, trace (snd (rounds c10_env 2 1 st)) =
     t1 ++ EvFixCall ["b.py"] 2
       (feedback_text (a_llm (expected_analysis c10_env ["b.py"])) (failure_feedback v)) :: t2).
Proof.
  apply (C10_genfail_retried c10_env ["b.py"] (expected_analysis c10_env ["b.py"])
           "Error generating response: timeout" 0 1); vm_compute; reflexivity.
Defined.

End EngineClaims.

(* ------------------------------------------------------------------ *)
(** ** Claims on the model gateway *)

Module LlmClaims.
Import Llm Scenarios.

(** C9 (code bug): the rate-limit payload asks for 20 s, which equals the
    default [retry_delay]; [generate] takes the parsed delay for the default
    and sleeps [retry_delay * (attempt + 1)], i.e. 40 s on the second
    attempt instead of the 20 s the payload gives. *)
Theorem C9_payload_delay_rescaled :
  extract_retry_delay c9_client (lower c9_msg) = 20%Q /\
  generate c9_client c9_invoke = (GenOk "ok", [20%Q; 40%Q]).
Proof. split; vm_compute; reflexivity. Qed.

End LlmClaims.

(* ------------------------------------------------------------------ *)
(** ** Claims on path containment *)

Module PathClaims.
Import Paths.

(** C5 (code bug): with the sandbox root [/repo/sandbox], the path
    [../sandbox_old/secret.py] resolves to [/repo/sandbox_old/secret.py],
    outside the root; [_resolve_and_validate] accepts it because its test is
    a string prefix test, while [Tools._is_safe_path] (a part-wise test)
    rejects the same path. *)
Theorem C5_sibling_prefix_accepted :
  resolve_and_validate ["repo"; "sandbox"] "../sandbox_old/secret.py" =
    Some ["repo"; "sandbox_old"; "secret.py"] /\
  parts_prefix ["repo"; "sandbox"] ["repo"; "sandbox_old"; "secret.py"] = false /\
  is_safe_path ["repo"; "sandbox"] "../sandbox_old/secret.py" = false.
Proof. repeat split; vm_compute; reflexivity. Qed.

End PathClaims.

(* ------------------------------------------------------------------ *)
(** ** Further properties: the retry loop of [LLMClient.generate] *)

Module LlmExtras.
Import Llm ExtraSpec.

(** What one run of the loop from [attempt] does: it stops at the first
    attempt that is not a rate-limit error, with its response or its
    [LLMError], or gives up with [QuotaExhaustedError] when every attempt up
    to [max_retries] was rate-limited; one cool-down per rate-limited attempt
    before the last. *)
Lemma gen_loop_cases c inv fuel : forall attempt last,
  attempt + fuel = S (max_retries c) -> attempt <= max_retries c ->
  (exists k s, attempt <= k <= max_retries c /\ (forall j, attempt <= j < k -> rl_err inv j = true) /\
     inv k = InvOk s /\ fst (gen_loop c inv fuel attempt last) = GenOk s /\
     List.length (snd (gen_loop c inv fuel attempt last)) = k - attempt) \/
  (exists k e, attempt <= k <= max_retries c /\ (forall j, attempt <= j < k -> rl_err inv j = true) /\
     inv k = InvErr e /\ rate_limited e = false /\
     fst (gen_loop c inv fuel attempt last) = GenLLMError ("Error generating response: " ++ e) /\
     List.length (snd (gen_loop c inv fuel attempt last)) = k - attempt) \/
  ((forall j, attempt <= j <= max_retries c -> rl_err inv j = true) /\
     fst (gen_loop c inv fuel attempt last) = GenQuota /\
     List.length (snd (gen_loop c inv fuel attempt last)) = max_retries c - attempt).
Proof.
  induction fuel as [|fuel IH]; intros attempt last H1 H2; [lia|].
  cbn [gen_loop]. destruct (inv attempt) as [s|e] eqn:Ei.
  - left. exists attempt, s. split; [lia|]. split; [intros j Hj; lia|].
    split; [exact Ei|split; [reflexivity|simpl; lia]].
  - change (contains "429" (lower e) || contains "rate limit" (lower e)) with (rate_limited e).
    destruct (rate_limited e) eqn:Er.
    + destruct (Nat.ltb_spec attempt (max_retries c)) as [Hlt|Hge].
      * destruct (IH (S attempt) (Some e) ltac:(lia) ltac:(lia))
          as [(k & s & Hk & Hj & Hi & Hf & Hl)|[(k & e' & Hk & Hj & Hi & He & Hf & Hl)|(Hj & Hf & Hl)]];
        destruct (gen_loop c inv fuel (S attempt) (Some e)) as [r sl]; simpl in *.
        -- left. exists k, s. split; [lia|]. split; [|split; [exact Hi|split; [exact Hf|lia]]].
           intros j Hj'. destruct (Nat.eq_dec j attempt) as [->|Hne];
             [unfold rl_err; rewrite Ei; exact Er|apply Hj; lia].
        -- right; left. exists k, e'. split; [lia|]. split; [|split; [exact Hi|split; [exact He|split; [exact Hf|lia]]]].
           intros j Hj'. destruct (Nat.eq_dec j attempt) as [->|Hne];
             [unfold rl_err; rewrite Ei; exact Er|apply Hj; lia].
        -- right; right. split; [|split; [exact Hf|lia]].
           intros j Hj'. destruct (Nat.eq_dec j attempt) as [->|Hne];
             [unfold rl_err; rewrite Ei; exact Er|apply Hj; lia].
      * right; right. simpl. split; [|split; [reflexivity|lia]].
        intros j Hj. replace j with attempt by lia. unfold rl_err. rewrite Ei. exact Er.
    + right; left. exists attempt, e. split; [lia|]. split; [intros j Hj; lia|].
      split; [exact Ei|split; [exact Er|split; [reflexivity|simpl; lia]]].
Qed.

(** With no delay in the error texts, the cool-downs are [retry_delay * (attempt + 1)]. *)
Lemma gen_loop_linear c inv fuel : forall attempt last,
  attempt + fuel = S (max_retries c) -> attempt <= max_retries c ->
  (forall j, attempt <= j <= max_retries c -> rl_plain_err inv j = true) ->
  gen_loop c inv fuel attempt last =
  (GenQuota, map (fun k => retry_delay c * inject_Z (Z.of_nat (k + 1)))%Q
                 (seq attempt (max_retries c - attempt))).
Proof.
  induction fuel as [|fuel IH]; intros attempt last H1 H2 H; [lia|].
  cbn [gen_loop]. pose proof (H attempt ltac:(lia)) as Ha. unfold rl_plain_err in Ha.
  destruct (inv attempt) as [s|e]; [discriminate|].
  apply andb_true_iff in Ha as [Er Ep].
  change (contains "429" (lower e) || contains "rate limit" (lower e)) with (rate_limited e).
  rewrite Er. destruct (Nat.ltb_spec attempt (max_retries c)) as [Hlt|Hge].
  - unfold no_payload_delay in Ep. unfold extract_retry_delay.
    destruct (search_delay "try again in " (lower e)); [discriminate|].
    destruct (search_delay "after " (lower e)); [discriminate|].
    rewrite Qeq_bool_refl.
    rewrite (IH (S attempt) (Some e) ltac:(lia) ltac:(lia) ltac:(intros j Hj; apply H; lia)).
    replace (max_retries c - attempt) with (S (max_retries c - S attempt)) by lia.
    reflexivity.
  - replace (max_retries c - attempt) with 0 by lia. reflexivity.
Qed.

(** Every attempt that [generate] makes is one of [0 .. max_retries]. *)
Lemma generate_cases c inv :
  (exists k s, k <= max_retries c /\ (forall j, j < k -> rl_err inv j = true) /\
     inv k = InvOk s /\ fst (generate c inv) = GenOk s /\ List.length (snd (generate c inv)) = k) \/
  (exists k e, k <= max_retries c /\ (forall j, j < k -> rl_err inv j = true) /\
     inv k = InvErr e /\ rate_limited e = false /\
     fst (generate c inv) = GenLLMError ("Error generating response: " ++ e) /\
     List.length (snd (generate c inv)) = k) \/
  ((forall j, j <= max_retries c -> rl_err inv j = true) /\
     fst (generate c inv) = GenQuota /\ List.length (snd (generate c inv)) = max_retries c).
Proof.
  unfold generate.
  destruct (gen_loop_cases c inv (S (max_retries c)) 0 None ltac:(lia) ltac:(lia))
    as [(k & s & Hk & Hj & Hi & Hf & Hl)|[(k & e & Hk & Hj & Hi & He & Hf & Hl)|(Hj & Hf & Hl)]].
  - left. exists k, s. rewrite Nat.sub_0_r in Hl.
    repeat split; auto; [lia|intros j Hj'; apply Hj; lia].
  - right; left. exists k, e. rewrite Nat.sub_0_r in Hl.
    repeat split; auto; [lia|intros j Hj'; apply Hj; lia].
  - right; right. rewrite Nat.sub_0_r in Hl.
    repeat split; auto. intros j Hj'; apply Hj; lia.
Qed.

Lemma forallb_seq (p : nat -> bool) n :
  forallb p (seq 0 n) = true <-> forall j, j < n -> p j = true.
Proof.
  rewrite forallb_forall. split.
  - intros H j Hj. apply H. apply in_seq. lia.
  - intros H j Hj. apply in_seq in Hj. apply H. lia.
Qed.

(** X1: [generate] makes at most [max_retries] rate-limit cool-down sleeps
    (the [time.sleep(delay)] of its [except] branch); the pacing waits of
    [_wait_for_rate_limit] are not counted. *)
Theorem generate_cooldowns_bounded c inv :
  List.length (snd (generate c inv)) <= max_retries c.
Proof.
  destruct (generate_cases c inv)
    as [(k & s & Hk & _ & _ & _ & Hl)|[(k & e & Hk & _ & _ & _ & _ & Hl)|(_ & _ & Hl)]]; lia.
Qed.

(** X2: [generate] raises [QuotaExhaustedError] exactly when all
    [max_retries + 1] attempts are rate-limited; it has then made exactly
    [max_retries] rate-limit cool-down sleeps (pacing waits of
    [_wait_for_rate_limit] not counted). *)
Theorem generate_quota_iff c inv :
  (fst (generate c inv) = GenQuota <-> forallb (rl_err inv) (seq 0 (S (max_retries c))) = true) /\
  (fst (generate c inv) = GenQuota -> List.length (snd (generate c inv)) = max_retries c).
Proof.
  rewrite forallb_seq.
  destruct (generate_cases c inv)
    as [(k & s & Hk & Hj & Hi & Hf & Hl)|[(k & e & Hk & Hj & Hi & He & Hf & Hl)|(Hj & Hf & Hl)]];
    rewrite Hf.
  - split; [split; [discriminate|]|discriminate].
    intros H. specialize (H k ltac:(lia)). unfold rl_err in H. rewrite Hi in H. discriminate.
  - split; [split; [discriminate|]|discriminate].
    intros H. specialize (H k ltac:(lia)). unfold rl_err in H. rewrite Hi, He in H. discriminate.
  - split; [split; [intros _ j Hj'; apply Hj; lia|reflexivity]|intros _; exact Hl].
Qed.

(** X3: a response or an [LLMError] comes from the first attempt that is not
    rate-limited, after one rate-limit cool-down sleep per earlier attempt
    (pacing waits of [_wait_for_rate_limit] not counted); the error message
    is the exception text behind ["Error generating response: "]. *)
Theorem generate_first_other_outcome c inv :
  (forall s, fst (generate c inv) = GenOk s ->
     exists k, k <= max_retries c /\ (forall j, j < k -> rl_err inv j = true) /\
               inv k = InvOk s /\ List.length (snd (generate c inv)) = k) /\
  (forall msg, fst (generate c inv) = GenLLMError msg ->
     exists k e, k <= max_retries c /\ (forall j, j < k -> rl_err inv j = true) /\
               inv k = InvErr e /\ rate_limited e = false /\
               msg = ("Error generating response: " ++ e)%string /\
               List.length (snd (generate c inv)) = k).
Proof.
  destruct (generate_cases c inv)
    as [(k & s & Hk & Hj & Hi & Hf & Hl)|[(k & e & Hk & Hj & Hi & He & Hf & Hl)|(Hj & Hf & Hl)]];
    rewrite Hf; split; intros x Hx; try discriminate.
  - injection Hx as <-. exists k. auto.
  - injection Hx as <-. exists k, e. auto 7.
Qed.

(** X4: when every attempt is rate-limited and no error text names a delay,
    the cool-downs are [retry_delay * 1, ..., retry_delay * max_retries]. *)
Theorem generate_linear_backoff c inv :
  forallb (rl_plain_err inv) (seq 0 (S (max_retries c))) = true ->
  generate c inv =
  (GenQuota, map (fun k => retry_delay c * inject_Z (Z.of_nat (k + 1)))%Q (seq 0 (max_retries c))).
Proof.
  rewrite forallb_seq. intros H. unfold generate.
  rewrite (gen_loop_linear c inv (S (max_retries c)) 0 None ltac:(lia) ltac:(lia)
             ltac:(intros j Hj; apply H; lia)).
  rewrite Nat.sub_0_r. reflexivity.
Qed.

Lemma generate_linear_backoff_witness :
  forallb (rl_plain_err (fun _ => InvErr "429 Too Many Requests")) (seq 0 3) = true /\
  generate (mk_client 2 5) (fun _ => InvErr "429 Too Many Requests") =
  (GenQuota, map (fun k => 5 * inject_Z (Z.of_nat (k + 1)))%Q (seq 0 2)).
Proof.
  split; [vm_compute; reflexivity|].
  apply (generate_linear_backoff (mk_client 2 5) (fun _ => InvErr "429 Too Many Requests")).
  vm_compute. reflexivity.
Defined.

End LlmExtras.

(* ------------------------------------------------------------------ *)
(** ** Further properties: [FixerAgent._remove_test_code] *)

Module SanitizerExtras.
Import Sanitizer SanitizerFacts ExtraSpec.

(** *** Subsequences *)

Lemma is_subseq_drop_head (l : list string) :
  forall x sub, is_subseq (x :: sub) l = true -> is_subseq sub l = true.
Proof.
  induction l as [|y l IH]; intros x sub H; simpl in H; [discriminate|].
  destruct sub as [|z sub']; [reflexivity|].
  simpl. destruct (String.eqb x y).
  - destruct (String.eqb z y) eqn:Ez; [|exact H].
    apply (IH z sub'). exact H.
  - destruct (String.eqb z y) eqn:Ez; [apply (IH z sub'), (IH x)|apply (IH x)]; exact H.
Qed.

Lemma is_subseq_cons_r (sub l : list string) (y : string) :
  is_subseq sub l = true -> is_subseq sub (y :: l) = true.
Proof.
  destruct sub as [|x sub]; [reflexivity|]. intros H. simpl.
  destruct (String.eqb x y); [apply (is_subseq_drop_head l x); exact H|exact H].
Qed.

Lemma is_subseq_app_l (p q l : list string) :
  is_subseq (p ++ q) l = true -> is_subseq p l = true.
Proof.
  revert p. induction l as [|y l IH]; intros p H.
  - destruct p; [reflexivity|discriminate].
  - destruct p as [|x p]; [reflexivity|]. simpl in *.
    destruct (String.eqb x y); apply IH; exact H.
Qed.

Lemma drop_blank_front_suffix (ls : list string) :
  exists pre, ls = pre ++ drop_blank_front ls.
Proof.
  induction ls as [|a ls IH]; simpl; [exists []; reflexivity|].
  destruct (is_blank a); [|exists []; reflexivity].
  destruct IH as [pre Hp]. exists (a :: pre). simpl. rewrite <- Hp. reflexivity.
Qed.

Lemma trim_trailing_prefix (ls : list string) :
  exists post, ls = trim_trailing ls ++ post.
Proof.
  destruct (drop_blank_front_suffix (rev ls)) as [pre Hp]. exists (rev pre).
  unfold trim_trailing. rewrite <- rev_app_distr, <- Hp, rev_involutive. reflexivity.
Qed.

Lemma step_emits_plain (st st' : sstate) (l l' : string) :
  step st l = (st', Some l') -> l' = l /\ plain l = true.
Proof.
  destruct st as [s ci]. unfold step, plain, is_import, is_trigger.
  destruct (import_re l), (from_re l), (class_re l), (contains "unittest.TestCase" l),
    (s && (is_blank l || Nat.ltb ci (indent l))), (def_re l),
    (contains "unittest.main()" l), (contains "pytest.main()" l);
    simpl; intros H; inversion H; auto.
Qed.

Lemma run_lines_subseq (ls : list string) :
  forall st, is_subseq (run_lines st ls) ls = true.
Proof.
  induction ls as [|a ls IH]; intros st; [reflexivity|].
  rewrite run_lines_cons. destruct (step st a) as [st' [o|]] eqn:E.
  - destruct (step_emits_plain _ _ _ _ E) as [-> _]. simpl. rewrite String.eqb_refl. apply IH.
  - apply is_subseq_cons_r. apply IH.
Qed.

Lemma run_lines_plain (ls : list string) :
  forall st, forallb plain (run_lines st ls) = true.
Proof.
  induction ls as [|a ls IH]; intros st; [reflexivity|].
  rewrite run_lines_cons. destruct (step st a) as [st' [o|]] eqn:E; [|apply IH].
  destruct (step_emits_plain _ _ _ _ E) as [-> Hp]. simpl. rewrite Hp. apply IH.
Qed.

Lemma run_lines_all_plain (ls : list string) (ci : nat) :
  forallb plain ls = true -> run_lines (false, ci) ls = ls.
Proof.
  induction ls as [|a ls IH]; [reflexivity|]. simpl forallb.
  intros H. apply andb_true_iff in H as [Ha H].
  rewrite run_lines_cons, step_plain by exact Ha. f_equal. apply IH, H.
Qed.

Lemma forallb_trim_trailing (p : string -> bool) (ls : list string) :
  forallb p ls = true -> forallb p (trim_trailing ls) = true.
Proof.
  rewrite !forallb_forall. intros H x Hx. apply H. apply trim_trailing_incl. exact Hx.
Qed.

Lemma drop_blank_front_head (ls : list string) (x : string) (r : list string) :
  drop_blank_front ls = x :: r -> is_blank x = false.
Proof.
  induction ls as [|a ls IH]; simpl; [discriminate|].
  destruct (is_blank a) eqn:Ea; [exact IH|intros H; inversion H; subst; exact Ea].
Qed.

Lemma trim_trailing_last (ls r : list string) (x : string) :
  trim_trailing ls = r ++ [x] -> is_blank x = false.
Proof.
  unfold trim_trailing. intros H.
  apply (f_equal (@rev string)) in H. rewrite rev_involutive, rev_app_distr in H.
  simpl in H. exact (drop_blank_front_head _ _ _ H).
Qed.

Lemma drop_blank_front_idem (ls : list string) :
  drop_blank_front (drop_blank_front ls) = drop_blank_front ls.
Proof.
  induction ls as [|a ls IH]; [reflexivity|]. simpl.
  destruct (is_blank a) eqn:Ea; [exact IH|simpl; rewrite Ea; reflexivity].
Qed.

Lemma trim_trailing_idem (ls : list string) :
  trim_trailing (trim_trailing ls) = trim_trailing ls.
Proof.
  unfold trim_trailing. rewrite rev_involutive, drop_blank_front_idem. reflexivity.
Qed.

Lemma trim_trailing_keep (ls : list string) :
  is_blank (last ls "") = false -> trim_trailing ls = ls.
Proof.
  intros H. destruct ls as [|a ls]; [discriminate|].
  assert (Hne : a :: ls <> []) by discriminate.
  generalize (a :: ls) Hne H. clear. intros L Hne H.
  unfold trim_trailing. rewrite (app_removelast_last "" Hne) at 1. rewrite rev_app_distr.
  cbn [rev app drop_blank_front]. rewrite H.
  change (last L "" :: rev (removelast L)) with (rev [last L ""] ++ rev (removelast L)).
  rewrite <- rev_app_distr, rev_involutive.
  symmetry. apply app_removelast_last. exact Hne.
Qed.

(** *** [str.split('\n')] and ['\n'.join(...)] *)

Fixpoint no_nl (s : string) : bool :=
  match s with
  | EmptyString => true
  | String c s' => negb (Ascii.eqb c (ascii_of_nat 10)) && no_nl s'
  end.

Lemma str_app_nil (s : string) : (s ++ "")%string = s.
Proof. induction s as [|c s IH]; simpl; [reflexivity|rewrite IH; reflexivity]. Qed.

Lemma str_app_assoc (a b c : string) : ((a ++ b) ++ c)%string = (a ++ (b ++ c))%string.
Proof. induction a as [|x a IH]; simpl; [reflexivity|rewrite IH; reflexivity]. Qed.

Lemma no_nl_app (a b : string) : no_nl (a ++ b) = no_nl a && no_nl b.
Proof. induction a as [|x a IH]; simpl; [reflexivity|rewrite IH, andb_assoc; reflexivity]. Qed.

Lemma split_nl_aux_cons (acc s : string) : exists l ls, split_nl_aux acc s = l :: ls.
Proof.
  revert acc. induction s as [|c s IH]; intros acc; simpl; [eauto|].
  destruct (Ascii.eqb c (ascii_of_nat 10)); eauto.
Qed.

Lemma join_split_aux (s : string) :
  forall acc, join_nl (split_nl_aux acc s) = (acc ++ s)%string.
Proof.
  induction s as [|c s IH]; intros acc; simpl; [rewrite str_app_nil; reflexivity|].
  destruct (Ascii.eqb c (ascii_of_nat 10)) eqn:Ec.
  - apply Ascii.eqb_eq in Ec. subst c.
    destruct (split_nl_aux_cons EmptyString s) as (l & ls & Hs).
    cbn [join_nl]. rewrite Hs. rewrite <- Hs, IH. reflexivity.
  - rewrite IH, str_app_assoc. reflexivity.
Qed.

(** ['\n'.join(code.split('\n')) == code] *)
Lemma join_split_nl (s : string) : join_nl (split_nl s) = s.
Proof. apply join_split_aux. Qed.

Lemma split_aux_line (l : string) :
  no_nl l = true -> forall acc, split_nl_aux acc l = [(acc ++ l)%string].
Proof.
  induction l as [|c l IH]; intros H acc; simpl; [rewrite str_app_nil; reflexivity|].
  simpl in H. apply andb_true_iff in H as [Hc H]. apply negb_true_iff in Hc. rewrite Hc.
  rewrite IH by exact H. rewrite str_app_assoc. reflexivity.
Qed.

Lemma split_aux_line_nl (l : string) :
  no_nl l = true -> forall acc rest,
  split_nl_aux acc (l ++ nl ++ rest) = (acc ++ l)%string :: split_nl_aux EmptyString rest.
Proof.
  induction l as [|c l IH]; intros H acc rest.
  - simpl. rewrite str_app_nil. reflexivity.
  - change (String c l ++ nl ++ rest)%string with (String c (l ++ nl ++ rest)).
    simpl in H. apply andb_true_iff in H as [Hc H]. apply negb_true_iff in Hc.
    cbn [split_nl_aux]. rewrite Hc.
    rewrite IH by exact H. rewrite str_app_assoc. reflexivity.
Qed.

Lemma split_join_nl (ls : list string) :
  ls <> [] -> forallb no_nl ls = true -> split_nl (join_nl ls) = ls.
Proof.
  induction ls as [|l ls IH]; intros Hne H; [congruence|].
  simpl in H. apply andb_true_iff in H as [Hl H].
  destruct ls as [|l2 ls'].
  - unfold split_nl. simpl. rewrite split_aux_line by exact Hl. reflexivity.
  - change (join_nl (l :: l2 :: ls')) with (l ++ nl ++ join_nl (l2 :: ls'))%string.
    unfold split_nl. rewrite split_aux_line_nl by exact Hl. simpl.
    f_equal. apply IH; [discriminate|exact H].
Qed.

Lemma split_nl_aux_no_nl (s : string) :
  forall acc, no_nl acc = true -> forallb no_nl (split_nl_aux acc s) = true.
Proof.
  induction s as [|c s IH]; intros acc H; simpl; [rewrite H; reflexivity|].
  destruct (Ascii.eqb c (ascii_of_nat 10)) eqn:Ec.
  - simpl. rewrite H. apply IH. reflexivity.
  - apply IH. rewrite no_nl_app, H. simpl. rewrite Ec. reflexivity.
Qed.

Lemma is_subseq_forallb (p : string -> bool) (l : list string) :
  forall sub, is_subseq sub l = true -> forallb p l = true -> forallb p sub = true.
Proof.
  induction l as [|y l IH]; intros sub Hs Hp.
  - destruct sub; [reflexivity|discriminate].
  - simpl in Hp. apply andb_true_iff in Hp as [Hy Hp].
    destruct sub as [|x sub]; [reflexivity|]. simpl in Hs.
    destruct (String.eqb x y) eqn:Ex.
    + apply String.eqb_eq in Ex. subst x. simpl. rewrite Hy. apply IH; assumption.
    + apply IH; assumption.
Qed.

(** *** Properties *)

(** X5: the sanitizer only deletes lines: what it returns is a subsequence
    of the input lines, each kept line unchanged and in its order. *)
Theorem remove_test_lines_subseq (lines : list string) :
  is_subseq (remove_test_lines lines) lines = true.
Proof.
  unfold remove_test_lines.
  destruct (trim_trailing_prefix (run_lines (false, 0) lines)) as [post Hp].
  apply (is_subseq_app_l _ post). rewrite <- Hp. apply run_lines_subseq.
Qed.

(** X6: no returned line matches any of the test patterns (the two import
    patterns, the test-class pattern, ["unittest.TestCase"], the test-function
    pattern, ["unittest.main()"], ["pytest.main()"]), and the last returned
    line is not blank. *)
Theorem remove_test_lines_clean (lines : list string) :
  forallb plain (remove_test_lines lines) = true /\
  (forall r x, remove_test_lines lines = r ++ [x] -> is_blank x = false).
Proof.
  unfold remove_test_lines. split.
  - apply forallb_trim_trailing, run_lines_plain.
  - intros r x. apply trim_trailing_last.
Qed.

(** X7: [_remove_test_code] is idempotent: a second pass changes nothing. *)
Theorem remove_test_code_idem (code : string) :
  remove_test_code (remove_test_code code) = remove_test_code code.
Proof.
  unfold remove_test_code at 2 3.
  set (L := remove_test_lines (split_nl code)).
  assert (HL : forallb plain L = true) by (apply remove_test_lines_clean).
  assert (Hn : forallb no_nl L = true).
  { apply (is_subseq_forallb no_nl (split_nl code)); [apply remove_test_lines_subseq|].
    apply split_nl_aux_no_nl. reflexivity. }
  destruct L as [|l ls] eqn:EL; [reflexivity|].
  unfold remove_test_code. rewrite split_join_nl by (discriminate || exact Hn).
  f_equal. rewrite <- EL. unfold remove_test_lines at 1.
  rewrite run_lines_all_plain by (rewrite EL; exact HL).
  unfold L, remove_test_lines. apply trim_trailing_idem.
Qed.

(** X8: code whose lines match none of the test patterns and whose last line
    is not blank is returned unchanged. *)
Theorem remove_test_code_clean_unchanged (code : string) :
  forallb plain (split_nl code) = true ->
  is_blank (last (split_nl code) "") = false ->
  remove_test_code code = code.
Proof.
  intros Hp Hb. unfold remove_test_code, remove_test_lines.
  rewrite run_lines_all_plain by exact Hp. rewrite trim_trailing_keep by exact Hb.
  apply join_split_nl.
Qed.

Lemma remove_test_code_clean_unchanged_witness :
  let code := ("def add(a, b):" ++ nl ++ "    return a + b")%string in
  forallb plain (split_nl code) = true /\ is_blank (last (split_nl code) "") = false /\
  remove_test_code code = code.
Proof.
  intros code. split; [vm_compute; reflexivity|split; [vm_compute; reflexivity|]].
  apply remove_test_code_clean_unchanged; vm_compute; reflexivity.
Defined.

End SanitizerExtras.

(* ------------------------------------------------------------------ *)
(** ** Further properties: the records, calls and files of [run] *)

Module EngineExtras.
Import Llm Engine EngineSpec DictFacts EngineFacts PlanFacts ExtraSpec.

(** *** Every record written satisfies what each record builder gives *)

Section Records.
Variable E : env.
Variable P : path -> file_result -> Prop.
Hypothesis P_nofix : forall a, P (a_filepath a) (nofix_record a).
Hypothesis P_fixfail : forall f it, 1 <= it <= max_iterations E -> P f (fixfail_record f it).
Hypothesis P_success : forall f it, 1 <= it <= max_iterations E -> P f (success_record f it).
Hypothesis P_maxiter : forall f, P f (maxiter_record E f).
Hypothesis P_quota : forall f, P f (quota_record f).

Definition recs_ok (st : St) : Prop := forall k v, In (k, v) (results st) -> P k v.

Lemma recs_set (d : list (path * file_result)) k v :
  (forall k' v', In (k', v') d -> P k' v') -> P k v ->
  forall k' v', In (k', v') (dict_set d k v) -> P k' v'.
Proof.
  intros H Hv. unfold dict_set. destruct (lookup d k) eqn:El.
  - clear El. induction d as [|[k0 v0] d IH]; simpl; [intros ? ? []|].
    destruct (path_eqb k k0) eqn:Ek.
    + apply path_eqb_eq in Ek. subst k0. intros k2 v2 [Heq|Hin].
      * injection Heq as <- <-. exact Hv.
      * apply (H k2 v2). right. exact Hin.
    + intros k2 v2 [Heq|Hin].
      * injection Heq as <- <-. apply (H k0 v0). left. reflexivity.
      * apply IH; [intros k3 v3 H3; apply (H k3 v3); right; exact H3|exact Hin].
  - intros k2 v2 Hin. apply in_app_iff in Hin as [Hin|[Heq|[]]].
    + exact (H k2 v2 Hin).
    + injection Heq as <- <-. exact Hv.
Qed.

Ltac recs_step :=
  unfold recs_ok in *; cbn [results] in *;
  first [assumption | apply recs_set; [assumption|auto]].

Ltac recs_tac := intros ?; recs_step.

Lemma fix_loop_recs it snap st :
  1 <= it <= max_iterations E -> recs_ok st -> recs_ok (snd (fix_loop E it snap st)).
Proof.
  intros Hit. unfold fix_loop. revert st.
  apply (for_each_rel (fun s s' => recs_ok s -> recs_ok s')); [auto|auto|].
  intros [f a] st0. unfold bind, fix_file, emit, modify, raise, ret, terminal, set_result,
    del_pending, with_trace, with_results, with_pending.
  destruct (fx_read E f it); simpl; [|recs_tac].
  destruct (fx_gen E f it); simpl; [|recs_tac|recs_tac].
  destruct (fx_write E f it); simpl; [|recs_tac].
  destruct (fx_pylint E f it); simpl; recs_tac.
Qed.

Lemma test_loop_recs it snap : forall failed st,
  1 <= it <= max_iterations E -> recs_ok st -> recs_ok (snd (test_loop E it snap failed st)).
Proof.
  induction snap as [|[f a] snap IH]; intros failed st Hit; simpl; [auto|].
  unfold bind, validate_code, generate_tests, fs_add, emit, modify, raise, ret,
    terminal, set_result, del_pending, set_pending, with_trace, with_results, with_pending, with_fs.
  destruct (vl_read E f it); simpl; [|recs_tac].
  destruct (vl_gen E f it); simpl; [|intros H; apply IH; [exact Hit|recs_step]|recs_tac].
  destruct (vl_write E f it); simpl; [|intros H; apply IH; [exact Hit|recs_step]].
  destruct (passed (vl_pytest E f it)); simpl; intros H; apply IH; (exact Hit || recs_step).
Qed.

Lemma rounds_recs fuel : forall it st,
  1 <= it -> it + fuel <= S (max_iterations E) -> recs_ok st -> recs_ok (snd (rounds E fuel it st)).
Proof.
  induction fuel as [|fuel IH]; intros it st H1 H2 H; simpl; [exact H|].
  unfold get, bind. cbv beta. destruct (pending st) as [|p l]; [exact H|].
  pose proof (fix_loop_recs it (p :: l) st ltac:(lia) H) as R1.
  destruct (fix_loop E it (p :: l) st) as [[u|e] st1]; simpl in *; [|exact R1].
  pose proof (test_loop_recs it (pending st1) [] st1 ltac:(lia) R1) as R2.
  destruct (test_loop E it (pending st1) [] st1) as [[fl|e] st2]; simpl in *; [|exact R2].
  destruct fl; [exact R2|apply IH; [lia|lia|exact R2]].
Qed.

Lemma stamp_recs mk st : (forall f, P f (mk f)) -> recs_ok st -> recs_ok (snd (stamp mk st)).
Proof.
  intros Hmk. unfold stamp, get, bind. cbv beta. generalize (keys (pending st)). intros l. revert st.
  apply (for_each_rel (fun s s' => recs_ok s -> recs_ok s')); [auto|auto|].
  intros f st0. unfold set_result, modify, with_results. simpl. intros H.
  unfold recs_ok in *. simpl. apply recs_set; [exact H|apply Hmk].
Qed.

Lemma phase2_recs st : recs_ok st -> recs_ok (snd (phase2 E st)).
Proof.
  intros H. unfold phase2, try_with.
  pose proof (rounds_recs (max_iterations E) 1 st ltac:(lia) ltac:(lia) H) as H1.
  destruct (rounds E (max_iterations E) 1 st) as [[u|[|m]] st1]; simpl in *; [| |exact H1];
    unfold bind; cbv beta;
    match goal with |- context [stamp ?mk st1] =>
      pose proof (stamp_recs mk st1 ltac:(auto) H1) as H2;
      destruct (stamp mk st1) as [[u'|e] st2]; cbv beta iota; [|exact H2] end;
    exact H2.
Qed.

Lemma partition_recs l st : recs_ok st -> recs_ok (snd (partition l st)).
Proof.
  unfold partition. revert st.
  apply (for_each_rel (fun s s' => recs_ok s -> recs_ok s')); [auto|auto|].
  intros a st0. unfold bind, terminal, set_result, set_pending, emit, modify,
    with_trace, with_results, with_pending.
  destruct (negb (a_needs a)); simpl; recs_tac.
Qed.

Lemma run_recs : recs_ok (snd (run E init_st)).
Proof.
  pose proof (plan_spec E) as PS. cbv zeta in PS.
  unfold run, try_with.
  destruct (create_refactoring_plan E init_st) as [r0 st0]. simpl in PS.
  destruct PS as (P0 & R0 & _ & _).
  assert (W0 : recs_ok st0) by (unfold recs_ok; rewrite R0; intros ? ? []).
  destruct r0 as [an|[|m]]; simpl; [|exact W0|exact W0].
  destruct an as [|a0 l0]; [exact W0|].
  unfold bind, get. cbv beta.
  pose proof (partition_recs (a0 :: l0) st0 W0) as W1.
  destruct (partition (a0 :: l0) st0) as [[u|e] st1]; simpl in *; [|exact W1].
  destruct (pending st1); [exact W1|].
  apply phase2_recs. exact W1.
Qed.

End Records.

(** [run] returns the summary of its final [results]. *)
Lemma run_summary E s :
  fst (run E init_st) = Ok (OutComplete s) -> s = build_summary (results (snd (run E init_st))).
Proof.
  unfold run, try_with.
  destruct (create_refactoring_plan E init_st) as [[an|[|m]] st0]; simpl; try discriminate.
  destruct an as [|a0 l0]; [discriminate|].
  unfold bind, get. cbv beta.
  rewrite (surjective_pairing (partition (a0 :: l0) st0)), partition_ok. cbv beta iota.
  destruct (pending (snd (partition (a0 :: l0) st0))).
  - rewrite finish_out. intros H. inversion H. reflexivity.
  - apply phase2_out.
Qed.

Lemma count_ext_in {A} (p q : A -> bool) (l : list A) :
  (forall x, In x l -> p x = q x) -> count p l = count q l.
Proof. intros H. unfold count. f_equal. apply filter_ext_in. exact H. Qed.

(** X12: in the final summary, [successful] counts the records whose status
    is [no_fix_needed] or [success], and [improved] counts the [success]
    records. *)
Theorem summary_counts_by_status E s :
  fst (run E init_st) = Ok (OutComplete s) ->
  s_successful s = count (fun r => validated_status (r_status r)) (s_results s) /\
  s_improved s = count (fun r => success_status (r_status r)) (s_results s).
Proof.
  intros H. apply run_summary in H. subst s. unfold build_summary. simpl.
  pose proof (run_recs E (fun _ r => r_validated r = validated_status (r_status r) /\
      match r_improved r with Some true => true | _ => false end = success_status (r_status r)))
    as R.
  unfold recs_ok in R.
  specialize (R ltac:(split; reflexivity) ltac:(split; reflexivity) ltac:(split; reflexivity)
                ltac:(split; reflexivity) ltac:(split; reflexivity)).
  split; apply count_ext_in; intros r Hr; apply in_map_iff in Hr as ([k v] & <- & Hin);
    apply (R k v Hin).
Qed.

Lemma summary_counts_by_status_witness :
  fst (run Scenarios.c2_env init_st) = Ok (OutComplete (build_summary (results (snd (run Scenarios.c2_env init_st))))) /\
  s_successful (build_summary (results (snd (run Scenarios.c2_env init_st)))) =
    count (fun r => validated_status (r_status r))
          (s_results (build_summary (results (snd (run Scenarios.c2_env init_st))))) /\
  s_improved (build_summary (results (snd (run Scenarios.c2_env init_st)))) =
    count (fun r => success_status (r_status r))
          (s_results (build_summary (results (snd (run Scenarios.c2_env init_st))))).
Proof.
  split; [vm_compute; reflexivity|].
  apply (summary_counts_by_status Scenarios.c2_env). vm_compute. reflexivity.
Defined.

(** X13: the [iterations] field of every final record fits its status:
    [0] for [no_fix_needed], a round in [1 .. max_iterations] for [success]
    and [fix_failed], [max_iterations] for [max_iterations], none for
    [quota_exhausted]; and every record is stored under its own path. *)
Theorem final_records_shape E :
  Forall (fun kv => r_filepath (snd kv) = fst kv /\ iterations_ok E (snd kv) = true)
         (results (snd (run E init_st))).
Proof.
  apply Forall_forall. intros [k v] Hin. simpl.
  refine (run_recs E (fun k r => r_filepath r = k /\ iterations_ok E r = true) _ _ _ _ _ k v Hin).
  - intros a. split; reflexivity.
  - intros f it Hit. split; [reflexivity|]. unfold iterations_ok, fixfail_record.
    cbn [r_status r_iterations]. apply andb_true_iff. split; apply Nat.leb_le; lia.
  - intros f it Hit. split; [reflexivity|]. unfold iterations_ok, success_record.
    cbn [r_status r_iterations]. apply andb_true_iff. split; apply Nat.leb_le; lia.
  - intros f. split; [reflexivity|]. unfold iterations_ok. simpl. apply Nat.eqb_refl.
  - intros f. split; reflexivity.
Qed.

(** *** Phase 1 and the outcome of [run] *)

(** X9: [create_refactoring_plan] raises [QuotaExhaustedError] exactly when
    the model call of a file that gets past [read_file] and [run_pylint]
    raises it; otherwise it returns, in the order of [list_python_files], the
    analyses of those files, and skips the others. *)
Theorem create_refactoring_plan_result E st :
  fst (create_refactoring_plan E st) =
  if existsb (quota_hit E) (files E) then Raise Quota
  else Ok (map (expected_analysis E) (filter (kept E) (files E))).
Proof. apply plan_result. Qed.

Lemma stamp_ok mk st : fst (stamp mk st) = Ok tt.
Proof. unfold stamp, get, bind. cbv beta. rewrite set_all_spec. reflexivity. Qed.

Lemma phase2_shape E st :
  (exists s, fst (phase2 E st) = Ok (OutComplete s)) \/ (exists m, fst (phase2 E st) = Raise (Other m)).
Proof.
  unfold phase2, try_with.
  destruct (rounds E (max_iterations E) 1 st) as [[u|[|m]] st1]; [left| left|right; exists m; reflexivity];
    unfold bind; cbv beta; rewrite (surjective_pairing (stamp _ st1)), stamp_ok; cbv beta iota;
    rewrite finish_out; eexists; reflexivity.
Qed.

Lemma existsb_quota_kept E fs : existsb (quota_hit E) fs = true -> filter (kept E) fs <> [].
Proof.
  intros H. apply existsb_exists in H as (f & Hf & Hq).
  unfold quota_hit in Hq. apply andb_true_iff in Hq as [Hk _].
  intros He. assert (Hin : In f (filter (kept E) fs)) by (apply filter_In; auto).
  rewrite He in Hin. contradiction.
Qed.

(** X10: [run] returns [quota_exhausted] (with no file processed) exactly
    when a Phase 1 model call hits the quota, returns [no_files] exactly when
    no file gets past [read_file] and [run_pylint], and never lets
    [QuotaExhaustedError] escape. *)
Theorem run_outcome E :
  (fst (run E init_st) = Ok OutQuota0 <-> existsb (quota_hit E) (files E) = true) /\
  (fst (run E init_st) = Ok OutNoFiles <-> filter (kept E) (files E) = []) /\
  fst (run E init_st) <> Raise Quota.
Proof.
  pose proof (plan_result E init_st) as PR.
  pose proof (existsb_quota_kept E (files E)) as QK.
  unfold run, try_with.
  destruct (create_refactoring_plan E init_st) as [r0 st0]. simpl in PR. subst r0.
  destruct (existsb (quota_hit E) (files E)).
  - specialize (QK eq_refl). simpl.
    split; [tauto|split; [split; [discriminate|intros H; contradiction]|discriminate]].
  - destruct (filter (kept E) (files E)) as [|f0 fs0] eqn:Ef; simpl.
    + split; [split; discriminate|split; [tauto|discriminate]].
    + unfold bind, get. cbv beta.
      rewrite (surjective_pairing (partition _ st0)), partition_ok. cbv beta iota.
      assert (S : (exists s, fst ((match pending (snd (partition (expected_analysis E f0
                    :: map (expected_analysis E) fs0) st0)) with [] => finish E | _ :: _ => phase2 E end)
                    (snd (partition (expected_analysis E f0 :: map (expected_analysis E) fs0) st0)))
                    = Ok (OutComplete s)) \/
                  (exists m, fst ((match pending (snd (partition (expected_analysis E f0
                    :: map (expected_analysis E) fs0) st0)) with [] => finish E | _ :: _ => phase2 E end)
                    (snd (partition (expected_analysis E f0 :: map (expected_analysis E) fs0) st0)))
                    = Raise (Other m))).
      { destruct (pending _); [left; rewrite finish_out; eexists; reflexivity|apply phase2_shape]. }
      destruct S as [[s Hs]|[m Hm]]; rewrite ?Hs, ?Hm.
      * split; [split; discriminate|split; [split; discriminate|discriminate]].
      * split; [split; discriminate|split; [split; discriminate|discriminate]].
Qed.

(** *** One record per analysed file *)

(** [results] and [pending] cover the paths of [K] between them, and
    [results] has no duplicate key. *)
Definition dinv (K : list path) (R : list (path * file_result)) (Pd : list (path * analysis)) : Prop :=
  (forall g, In g (keys R) \/ In g (keys Pd) <-> In g K) /\ NoDup (keys R).

Definition Dinv (K : list path) (st : St) : Prop := dinv K (results st) (pending st).

Lemma dinv_set_r K R Pd f r : dinv K R Pd -> In f K -> dinv K (dict_set R f r) Pd.
Proof.
  intros [H N] Hf. split; [|apply nodup_dict_set; exact N].
  intros g. rewrite keys_dict_set. split.
  - intros [[->|G]|G]; [exact Hf|apply H; auto|apply H; auto].
  - intros G. apply H in G. tauto.
Qed.

Lemma dinv_set_p K R Pd f a : dinv K R Pd -> In f K -> dinv K R (dict_set Pd f a).
Proof.
  intros [H N] Hf. split; [|exact N].
  intros g. rewrite keys_dict_set. split.
  - intros [G|[->|G]]; [apply H; auto|exact Hf|apply H; auto].
  - intros G. apply H in G. tauto.
Qed.

Lemma dinv_del_p K R Pd f : dinv K R Pd -> In f (keys R) -> dinv K R (dict_del Pd f).
Proof.
  intros [H N] Hf. split; [|exact N].
  intros g. rewrite keys_dict_del. split.
  - intros [G|[G _]]; apply H; auto.
  - intros G. apply H in G. destruct (list_eq_dec String.string_dec g f) as [->|Hne]; [left; exact Hf|].
    tauto.
Qed.

Ltac dinv_tac :=
  unfold Dinv in *; cbn [results pending] in *;
  repeat match goal with
  | |- dinv _ _ (dict_del _ _) => apply dinv_del_p
  | |- dinv _ _ (dict_set _ _ _) => apply dinv_set_p
  | |- dinv _ (dict_set _ _ _) _ => apply dinv_set_r
  | |- In ?f (keys (dict_set _ ?f _)) => apply keys_dict_set; left; reflexivity
  end; try assumption.

Lemma for_each_pred_in {A} (Q : St -> Prop) (body : A -> M unit) (l : list A) :
  (forall x st, In x l -> Q st -> Q (snd (body x st))) ->
  forall st, Q st -> Q (snd (for_each l body st)).
Proof.
  induction l as [|x l IH]; intros Hb st H; simpl; [exact H|].
  unfold bind. pose proof (Hb x st (or_introl eq_refl) H) as H1.
  destruct (body x st) as [[u|e] st1]; simpl in *; [|exact H1].
  apply IH; [intros y s Hy; apply Hb; right; exact Hy|exact H1].
Qed.

Lemma fix_loop_dinv E K it snap st :
  (forall g, In g (keys snap) -> In g K) -> Dinv K st -> Dinv K (snd (fix_loop E it snap st)).
Proof.
  intros HK. unfold fix_loop. revert st. apply for_each_pred_in.
  intros [f a] st0 Hin. assert (Hf : In f K) by (apply HK; exact (in_map fst _ _ Hin)).
  unfold bind, fix_file, emit, modify, raise, ret, terminal, set_result,
    del_pending, with_trace, with_results, with_pending.
  destruct (fx_read E f it); simpl; [|intros; dinv_tac].
  destruct (fx_gen E f it); simpl; [|intros; dinv_tac|intros; dinv_tac].
  destruct (fx_write E f it); simpl; [|intros; dinv_tac].
  destruct (fx_pylint E f it); simpl; intros; dinv_tac.
Qed.

Lemma test_loop_dinv E K it snap : forall failed st,
  (forall g, In g (keys snap) -> In g K) -> Dinv K st -> Dinv K (snd (test_loop E it snap failed st)).
Proof.
  induction snap as [|[f a] snap IH]; intros failed st HK; simpl; [auto|].
  assert (Hf : In f K) by (apply HK; left; reflexivity).
  assert (HK' : forall g, In g (keys snap) -> In g K) by (intros g Hg; apply HK; right; exact Hg).
  unfold bind, validate_code, generate_tests, fs_add, emit, modify, raise, ret,
    terminal, set_result, del_pending, set_pending, with_trace, with_results, with_pending, with_fs.
  destruct (vl_read E f it); simpl; [|intros; dinv_tac].
  destruct (vl_gen E f it); simpl; [|intros H; apply IH; [exact HK'|dinv_tac]|intros; dinv_tac].
  destruct (vl_write E f it); simpl; [|intros H; apply IH; [exact HK'|dinv_tac]].
  destruct (passed (vl_pytest E f it)); simpl; intros H; apply IH; (exact HK' || dinv_tac).
Qed.

Lemma dinv_pending K st g : Dinv K st -> In g (keys (pending st)) -> In g K.
Proof. intros [H _] Hg. apply H. right. exact Hg. Qed.

Lemma rounds_dinv E K fuel : forall it st, Dinv K st -> Dinv K (snd (rounds E fuel it st)).
Proof.
  induction fuel as [|fuel IH]; intros it st H; simpl; [exact H|].
  unfold get, bind. cbv beta. destruct (pending st) as [|p l] eqn:Ep; [exact H|].
  pose proof (fix_loop_dinv E K it (p :: l) st
                ltac:(intros g Hg; rewrite <- Ep in Hg; exact (dinv_pending K st g H Hg)) H) as H1.
  destruct (fix_loop E it (p :: l) st) as [[u|e] st1]; simpl in *; [|exact H1].
  pose proof (test_loop_dinv E K it (pending st1) [] st1
                (fun g Hg => dinv_pending K st1 g H1 Hg) H1) as H2.
  destruct (test_loop E it (pending st1) [] st1) as [[fl|e] st2]; simpl in *; [|exact H2].
  destruct fl; [exact H2|apply IH; exact H2].
Qed.

Lemma keys_fold_set (mk : path -> file_result) l : forall (d : list (path * file_result)) g,
  In g (keys (fold_left (fun d f => dict_set d f (mk f)) l d)) <-> In g l \/ In g (keys d).
Proof.
  induction l as [|x l IH]; intros d g; simpl; [tauto|].
  rewrite IH, keys_dict_set.
  split; [intros [H|[->|H]]; auto|intros [[->|H]|H]; auto].
Qed.

Lemma nodup_fold_set (mk : path -> file_result) l : forall (d : list (path * file_result)),
  NoDup (keys d) -> NoDup (keys (fold_left (fun d f => dict_set d f (mk f)) l d)).
Proof.
  induction l as [|x l IH]; intros d H; simpl; [exact H|].
  apply IH, nodup_dict_set, H.
Qed.

(** After [stamp] and [finish], the keys of [results] are exactly [K]. *)
Lemma stamp_finish_keys E K mk st :
  Dinv K st ->
  (forall g, In g (keys (results (snd ((stamp mk ;;; finish E) st)))) <-> In g K) /\
  NoDup (keys (results (snd ((stamp mk ;;; finish E) st)))).
Proof.
  intros [H N]. rewrite stamp_finish_spec. simpl. split.
  - intros g. rewrite keys_fold_set, <- H. tauto.
  - apply nodup_fold_set, N.
Qed.

Lemma phase2_keys E K st s :
  Dinv K st -> fst (phase2 E st) = Ok (OutComplete s) ->
  (forall g, In g (keys (results (snd (phase2 E st)))) <-> In g K) /\
  NoDup (keys (results (snd (phase2 E st)))).
Proof.
  intros H. unfold phase2, try_with.
  pose proof (rounds_dinv E K (max_iterations E) 1 st H) as H1.
  destruct (rounds E (max_iterations E) 1 st) as [[u|[|m]] st1]; simpl in *;
    [intros _; apply stamp_finish_keys; exact H1|intros _; apply stamp_finish_keys; exact H1|discriminate].
Qed.

Lemma partition_dinv l : forall st,
  (forall g, In g (keys (results (snd (partition l st)))) \/ In g (keys (pending (snd (partition l st))))
             <-> (In g (keys (results st)) \/ In g (keys (pending st))) \/ In g (map a_filepath l)) /\
  (NoDup (keys (results st)) -> NoDup (keys (results (snd (partition l st))))).
Proof.
  induction l as [|a l IH]; intros st.
  - simpl. split; [tauto|auto].
  - unfold partition. cbn [for_each]. fold (partition l).
    unfold terminal, set_result, set_pending, emit, modify, bind, with_trace, with_results, with_pending.
    destruct (negb (a_needs a)); cbv beta iota;
      match goal with |- context [partition l ?s] => destruct (IH s) as [IH1 IH2] end;
      simpl in IH1, IH2 |- *;
      (split; [intros g; rewrite IH1, !keys_dict_set; simpl; intuition (subst; auto)|
               intros N; apply IH2; try apply nodup_dict_set; exact N]).
Qed.

Lemma wf_keys (d : list (path * file_result)) : wf_dict d -> map r_filepath (map snd d) = keys d.
Proof.
  induction d as [|[k v] d IH]; intros H; simpl; [reflexivity|].
  rewrite (H k v (or_introl eq_refl)), IH; [reflexivity|].
  intros k2 v2 H2. apply (H k2 v2). right. exact H2.
Qed.

Lemma run_keys E s :
  fst (run E init_st) = Ok (OutComplete s) ->
  (forall g, In g (keys (results (snd (run E init_st)))) <-> In g (filter (kept E) (files E))) /\
  NoDup (keys (results (snd (run E init_st)))).
Proof.
  pose proof (plan_spec E) as PS. cbv zeta in PS.
  pose proof (plan_result E init_st) as PR.
  unfold run, try_with.
  destruct (create_refactoring_plan E init_st) as [r0 st0]. simpl in PS, PR. subst r0.
  destruct PS as (P0 & R0 & _ & _).
  destruct (existsb (quota_hit E) (files E)); [discriminate|]. simpl.
  destruct (filter (kept E) (files E)) as [|f0 fs0] eqn:Ef; [discriminate|]. simpl.
  set (an := expected_analysis E f0 :: map (expected_analysis E) fs0).
  assert (HK : map a_filepath an = f0 :: fs0)
    by (unfold an; rewrite <- map_cons; apply map_filepath_expected).
  destruct (partition_dinv an st0) as [D1 N1].
  rewrite P0, R0, HK in D1. rewrite R0 in N1. simpl in D1, N1.
  unfold bind, get. cbv beta.
  rewrite (surjective_pairing (partition an st0)), partition_ok. cbv beta iota.
  assert (D : Dinv (f0 :: fs0) (snd (partition an st0))).
  { split; [intros g; rewrite D1; simpl; tauto|apply N1; constructor]. }
  destruct (pending (snd (partition an st0))) as [|p l] eqn:Ep.
  - intros _. destruct D as [D N]. rewrite Ep in D. simpl in D.
    split; [intros g; rewrite <- D; tauto|exact N].
  - intros Hs. destruct (phase2_keys E (f0 :: fs0) _ s D Hs) as [A B].
    split; [intros g; rewrite A; simpl; tauto|exact B].
Qed.

(** X11: when [files] lists no path twice and [run] completes, the summary
    holds one record per file that got past [read_file] and [run_pylint]
    (each such file once, no other file), and [total_files] is their number. *)
Theorem summary_one_record_per_file E s :
  distinct (files E) = true ->
  fst (run E init_st) = Ok (OutComplete s) ->
  (forall g, In g (map r_filepath (s_results s)) <-> In g (filter (kept E) (files E))) /\
  NoDup (map r_filepath (s_results s)) /\
  s_total s = List.length (filter (kept E) (files E)).
Proof.
  intros Hd Hr. destruct (run_keys E s Hr) as [Hk Hn].
  apply run_summary in Hr. subst s. unfold build_summary. simpl.
  rewrite (wf_keys _ (run_wf E)).
  split; [exact Hk|split; [exact Hn|]].
  rewrite length_map.
  assert (Hf : NoDup (filter (kept E) (files E))) by (apply NoDup_filter, distinct_NoDup, Hd).
  rewrite <- (length_map fst (results (snd (run E init_st)))). fold (keys (results (snd (run E init_st)))).
  apply Nat.le_antisymm; apply NoDup_incl_length; auto; intros g; apply Hk.
Qed.

Lemma summary_one_record_per_file_witness :
  let s := build_summary (results (snd (run Scenarios.c2_env init_st))) in
  distinct (files Scenarios.c2_env) = true /\
  fst (run Scenarios.c2_env init_st) = Ok (OutComplete s) /\
  s_total s = List.length (filter (kept Scenarios.c2_env) (files Scenarios.c2_env)).
Proof.
  intros s. split; [vm_compute; reflexivity|split; [vm_compute; reflexivity|]].
  apply (summary_one_record_per_file Scenarios.c2_env s); vm_compute; reflexivity.
Defined.

(** *** Rounds of the calls *)

Definition calls_ok (E : env) (st : St) : Prop :=
  forallb (call_round_ok 1 (max_iterations E)) (trace st) = true.

Ltac calls_step :=
  unfold calls_ok in *; cbn [trace snd] in *; rewrite ?forallb_app;
  repeat match goal with H : forallb _ _ = true |- _ => rewrite H end;
  cbn [forallb call_round_ok andb];
  repeat match goal with H : Nat.leb _ _ = true |- _ => rewrite H end;
  reflexivity.

Ltac calls_tac := intros ?; calls_step.

Lemma fix_loop_calls_ok E it snap st :
  1 <= it <= max_iterations E -> calls_ok E st -> calls_ok E (snd (fix_loop E it snap st)).
Proof.
  intros Hit. assert (Hl1 : Nat.leb 1 it = true) by (apply Nat.leb_le; lia).
  assert (Hl2 : Nat.leb it (max_iterations E) = true) by (apply Nat.leb_le; lia).
  unfold fix_loop. revert st.
  apply (for_each_rel (fun s s' => calls_ok E s -> calls_ok E s')); [auto|auto|].
  intros [f a] st0. unfold bind, fix_file, emit, modify, raise, ret, terminal, set_result,
    del_pending, with_trace, with_results, with_pending.
  destruct (fx_read E f it); simpl; [|calls_tac].
  destruct (fx_gen E f it); simpl; [|calls_tac|calls_tac].
  destruct (fx_write E f it); simpl; [|calls_tac].
  destruct (fx_pylint E f it); simpl; calls_tac.
Qed.

Lemma test_loop_calls_ok E it snap : forall failed st,
  1 <= it <= max_iterations E -> calls_ok E st -> calls_ok E (snd (test_loop E it snap failed st)).
Proof.
  induction snap as [|[f a] snap IH]; intros failed st Hit; simpl; [auto|].
  assert (Hl1 : Nat.leb 1 it = true) by (apply Nat.leb_le; lia).
  assert (Hl2 : Nat.leb it (max_iterations E) = true) by (apply Nat.leb_le; lia).
  unfold bind, validate_code, generate_tests, fs_add, emit, modify, raise, ret,
    terminal, set_result, del_pending, set_pending, with_trace, with_results, with_pending, with_fs.
  destruct (vl_read E f it); simpl; [|calls_tac].
  destruct (vl_gen E f it); simpl; [|intros H; apply IH; [exact Hit|calls_step]|calls_tac].
  destruct (vl_write E f it); simpl; [|intros H; apply IH; [exact Hit|calls_step]].
  destruct (passed (vl_pytest E f it)); simpl; intros H; apply IH; (exact Hit || calls_step).
Qed.

Lemma rounds_calls_ok E fuel : forall it st,
  1 <= it -> it + fuel <= S (max_iterations E) -> calls_ok E st -> calls_ok E (snd (rounds E fuel it st)).
Proof.
  induction fuel as [|fuel IH]; intros it st H1 H2 H; simpl; [exact H|].
  unfold get, bind. cbv beta. destruct (pending st) as [|p l]; [exact H|].
  pose proof (fix_loop_calls_ok E it (p :: l) st ltac:(lia) H) as R1.
  destruct (fix_loop E it (p :: l) st) as [[u|e] st1]; simpl in *; [|exact R1].
  pose proof (test_loop_calls_ok E it (pending st1) [] st1 ltac:(lia) R1) as R2.
  destruct (test_loop E it (pending st1) [] st1) as [[fl|e] st2]; simpl in *; [|exact R2].
  destruct fl; [exact R2|apply IH; [lia|lia|exact R2]].
Qed.

Lemma stamp_finish_calls_ok E mk st : calls_ok E st -> calls_ok E (snd ((stamp mk ;;; finish E) st)).
Proof. rewrite stamp_finish_spec. calls_tac. Qed.

Lemma phase2_calls_ok E st : calls_ok E st -> calls_ok E (snd (phase2 E st)).
Proof.
  intros H. unfold phase2, try_with.
  pose proof (rounds_calls_ok E (max_iterations E) 1 st ltac:(lia) ltac:(lia) H) as H1.
  destruct (rounds E (max_iterations E) 1 st) as [[u|[|m]] st1]; simpl in *;
    [apply stamp_finish_calls_ok; exact H1|apply stamp_finish_calls_ok; exact H1|exact H1].
Qed.

Lemma partition_calls_ok E l st : calls_ok E st -> calls_ok E (snd (partition l st)).
Proof.
  unfold partition. revert st.
  apply (for_each_rel (fun s s' => calls_ok E s -> calls_ok E s')); [auto|auto|].
  intros a st0. unfold bind, terminal, set_result, set_pending, emit, modify,
    with_trace, with_results, with_pending.
  destruct (negb (a_needs a)); simpl; calls_tac.
Qed.

Lemma finish_calls_ok E st : calls_ok E st -> calls_ok E (snd (finish E st)).
Proof. cbv [finish cleanup_tests bind emit modify get ret with_trace with_fs]. calls_tac. Qed.

(** X14: every repair and validation call of [run] belongs to a round
    [1 .. max_iterations]: no call is made after the last round. *)
Theorem run_calls_in_rounds E :
  forallb (call_round_ok 1 (max_iterations E)) (trace (snd (run E init_st))) = true.
Proof.
  fold (calls_ok E (snd (run E init_st))).
  pose proof (plan_spec E) as PS. cbv zeta in PS.
  unfold run, try_with.
  destruct (create_refactoring_plan E init_st) as [r0 st0]. simpl in PS.
  destruct PS as (_ & _ & T0 & _).
  assert (W0 : calls_ok E st0).
  { unfold calls_ok. apply forallb_forall. intros e He. specialize (T0 e He).
    destruct e; simpl in T0; try contradiction; reflexivity. }
  destruct r0 as [an|[|m]]; simpl; [|exact W0|exact W0].
  destruct an as [|a0 l0]; [exact W0|].
  unfold bind, get. cbv beta.
  pose proof (partition_calls_ok E (a0 :: l0) st0 W0) as W1.
  destruct (partition (a0 :: l0) st0) as [[u|e] st1]; simpl in *; [|exact W1].
  destruct (pending st1); [apply finish_calls_ok; exact W1|].
  apply phase2_calls_ok. exact W1.
Qed.

(** *** Where the test artifacts go *)























End EngineExtras.


(* ------------------------------------------------------------------ *)
(** ** Further properties of the two sandbox checks *)

Module PathExtras.
Import Paths.



Lemma parts_prefix_inv r : forall l, parts_prefix r l = true -> exists rest, l = r ++ rest.
Proof.
  induction r as [|a r IH]; intros l H; [exists l; reflexivity|].
  destruct l as [|b l]; simpl in H; [discriminate|].
  apply andb_true_iff in H as [Hab H]. apply String.eqb_eq in Hab. subst b.
  destruct (IH l H) as [rest ->]. exists rest. reflexivity.
Qed.

Lemma prefix_app_cancel a s1 s2 : prefix (a ++ s1) (a ++ s2) = prefix s1 s2.
Proof.
  induction a as [|c a IH]; simpl; [reflexivity|].
  destruct (ascii_dec c c) as [_|n]; [exact IH|contradiction n; reflexivity].
Qed.

Lemma prefix_refl s : prefix s s = true.
Proof.
  induction s as [|c s IH]; simpl; [reflexivity|].
  destruct (ascii_dec c c) as [_|n]; [exact IH|contradiction n; reflexivity].
Qed.

Lemma prefix_nil s : prefix "" s = true.
Proof. destruct s; reflexivity. Qed.

Lemma prefix_app s t : prefix s (s ++ t) = true.
Proof.
  induction s as [|c s IH]; simpl; [apply prefix_nil|].
  destruct (ascii_dec c c) as [_|n]; [exact IH|contradiction n; reflexivity].
Qed.

Lemma join_slash_cons2 a b r : join_slash (a :: b :: r) = (a ++ "/" ++ join_slash (b :: r))%string.
Proof. reflexivity. Qed.

Lemma join_slash_prefix r x : prefix (join_slash r) (join_slash (r ++ x)) = true.
Proof.
  induction r as [|a r IH]; [apply prefix_nil|].
  destruct r as [|b r'].
  - destruct x as [|y x]; [apply prefix_refl|].
    change ([a] ++ y :: x) with (a :: y :: x). rewrite join_slash_cons2. apply prefix_app.
  - change ((a :: b :: r') ++ x) with (a :: b :: (r' ++ x)).
    rewrite !join_slash_cons2, !prefix_app_cancel. exact IH.
Qed.

Lemma abs_str_prefix r x : prefix (abs_str r) (abs_str (r ++ x)) = true.
Proof. unfold abs_str. rewrite prefix_app_cancel. apply join_slash_prefix. Qed.

Lemma safe_valid root p :
  is_safe_path root p = true ->
  resolve_and_validate root p = Some (resolve (join (mk_path true root) (of_string p))).
Proof.
  unfold is_safe_path, resolve_and_validate. intros H. cbv zeta.
  assert (Hc : (if absolute (of_string p) then of_string p else join (mk_path true root) (of_string p))
               = join (mk_path true root) (of_string p))
    by (unfold join; destruct (absolute (of_string p)); reflexivity).
  rewrite Hc. destruct (parts_prefix_inv _ _ H) as [rest Hr]. rewrite Hr.
  rewrite abs_str_prefix. reflexivity.
Qed.


(** X17: every path that [Tools._is_safe_path] accepts, filesystem.py's
    [_resolve_and_validate] accepts too, and it resolves the path to the
    same place: the string-prefix test of filesystem.py is never stricter
    than the part-wise test of file_tools.py. *)
Theorem safe_path_passes_sandbox_check root p :
  is_safe_path root p = true ->
  resolve_and_validate root p = Some (resolve (join (mk_path true root) (of_string p))).
Proof. apply safe_valid. Qed.

Lemma safe_path_passes_sandbox_check_witness :
  is_safe_path ["repo"; "sandbox"] "src/../main.py" = true /\
  resolve_and_validate ["repo"; "sandbox"] "src/../main.py" = Some ["repo"; "sandbox"; "main.py"].
Proof.
  split; [vm_compute; reflexivity|].
  rewrite (safe_path_passes_sandbox_check ["repo"; "sandbox"] "src/../main.py"); vm_compute; reflexivity.
Defined.



End PathExtras.
